(** * Arabic content moderation bot: the moderation core of [main.py]

    The development embeds [ArabicContentModerator] (lexicon construction,
    text normalisation, the two-phase bad-word check), the message handler
    [ContentModerationBot.moderate_message] and [get_api_keys], and proves
    the properties the specification states about them.

    A Python [str] is a sequence of Unicode code points and is modelled as
    a list of code points ([N]).  The Unicode Character Database consulted
    by [unicodedata] and by [str.lower], [str.upper] and [str.split] is a
    parameter of the model (record [UCD]); the facts of the database that
    the proofs rely on are collected in [ucd_laws]. *)

From Stdlib Require Import NArith ZArith List Bool String Ascii Lia.
From Stdlib Require Import DecimalString.
From stdpp Require Import base tactics option list gmap.

Open Scope N_scope.
Open Scope list_scope.

(** ** Python strings *)

(** UTF-8 decoding, used only to write the literals of the source file
    legibly: [pystr] turns the bytes of a literal into its code points. *)
Fixpoint utf8_decode (need : nat) (acc : N) (bs : list N) : list N :=
  match bs with
  | [] => []
  | b :: bs' =>
    match need with
    | S n =>
      let acc' := acc * 64 + b mod 64 in
      match n with
      | O => acc' :: utf8_decode O 0 bs'
      | _ => utf8_decode n acc' bs'
      end
    | O =>
      if b <? 128 then b :: utf8_decode O 0 bs'
      else if b <? 224 then utf8_decode 1 (b mod 32) bs'
      else if b <? 240 then utf8_decode 2 (b mod 16) bs'
      else utf8_decode 3 (b mod 8) bs'
    end
  end.

Definition pystr (s : string) : list N :=
  utf8_decode O 0 (List.map N_of_ascii (list_ascii_of_string s)).

(** [a == b] on strings. *)
Fixpoint str_eqb (a b : list N) : bool :=
  match a, b with
  | [], [] => true
  | x :: a', y :: b' => (x =? y) && str_eqb a' b'
  | _, _ => false
  end.

(** [a in b] on strings: [b] has [a] as a contiguous substring. *)
Fixpoint starts_with (w t : list N) : bool :=
  match w, t with
  | [], _ => true
  | _ :: _, [] => false
  | a :: w', b :: t' => (a =? b) && starts_with w' t'
  end.

Fixpoint str_in (w t : list N) : bool :=
  starts_with w t ||
  match t with
  | [] => false
  | _ :: t' => str_in w t'
  end.

(** [s.replace(old, new)] for a one-character [old], the only form the
    program uses: every occurrence of [old] becomes [new]. *)
Definition replace (old : N) (new : list N) (s : list N) : list N :=
  List.flat_map (fun c => if c =? old then new else [c]) s.

(** [sep.join(parts)]. *)
Fixpoint join (sep : list N) (parts : list (list N)) : list N :=
  match parts with
  | [] => []
  | w :: ws =>
    match ws with
    | [] => w
    | _ :: _ => w ++ sep ++ join sep ws
    end
  end.

(** [s.split()], given what counts as white space: the maximal runs of
    other code points.  [word] is the run being scanned. *)
Definition emit (word : list N) (rest : list (list N)) : list (list N) :=
  match word with
  | [] => rest
  | _ :: _ => word :: rest
  end.

Fixpoint split_from (space : N -> bool) (word : list N) (s : list N)
  : list (list N) :=
  match s with
  | [] => emit word []
  | c :: s' =>
    if space c then emit word (split_from space [] s')
    else split_from space (word ++ [c]) s'
  end.

(** ** The Unicode Character Database

    The tables behind [unicodedata.normalize], [unicodedata.combining],
    [str.split], [str.lower] and [str.upper]. *)
Record UCD := {
  (** full compatibility decomposition of one code point (the code point
      itself when it has none) *)
  decomp : N -> list N;
  (** canonical combining class, [unicodedata.combining] *)
  combining : N -> N;
  (** white space in the sense of [str.isspace] and [str.split] *)
  is_space : N -> bool;
  (** full lowercase and uppercase mappings of one code point *)
  lower_full : N -> list N;
  upper_full : N -> list N;
  (** the properties [Cased] and [Case_Ignorable] *)
  cased : N -> bool;
  case_ignorable : N -> bool;
  (** general category [Lu], "Letter, uppercase" *)
  is_Lu : N -> bool
}.

(** Code points the program names. *)
Definition SPACE : N := 0x20.
Definition ALEF : N := 0x627.
Definition ALEF_HAMZA_ABOVE : N := 0x623.
Definition ALEF_HAMZA_BELOW : N := 0x625.
Definition TEH_MARBUTA : N := 0x629.
Definition HEH : N := 0x647.
Definition ALEF_MAKSURA : N := 0x649.
Definition YEH : N := 0x64A.
Definition CAPITAL_SIGMA : N := 0x3A3.
Definition SMALL_SIGMA : N := 0x3C3.
Definition FINAL_SIGMA : N := 0x3C2.

Section Unicode.
Variable U : UCD.

(** *** [unicodedata.normalize('NFKD', text)]

    Every code point is replaced by its full compatibility decomposition,
    then each run of marks (non-zero combining class) is put in canonical
    order: a stable sort by combining class, done here by inserting each
    code point into the ordered text that follows it. *)
Fixpoint reorder_insert (c : N) (l : list N) : list N :=
  match l with
  | [] => [c]
  | d :: l' =>
    if (0 <? combining U d) && (combining U d <? combining U c)
    then d :: reorder_insert c l'
    else c :: l
  end.

Fixpoint canonical_order (l : list N) : list N :=
  match l with
  | [] => []
  | c :: l' => reorder_insert c (canonical_order l')
  end.

Definition nfkd (text : list N) : list N :=
  canonical_order (List.flat_map (decomp U) text).

(** *** [text.split()] *)
Definition split (s : list N) : list (list N) :=
  split_from (is_space U) [] s.

(** *** [text.lower()]

    Each code point is replaced by its full lowercase mapping, except
    capital sigma, which becomes final sigma when it ends a word: when the
    nearest code point before it that is not case-ignorable is cased and
    the nearest one after it is not.  [before] is the text already read,
    nearest first. *)
Definition first_significant (s : list N) : option N :=
  List.find (fun c => negb (case_ignorable U c)) s.

Definition final_sigma (before after : list N) : bool :=
  match first_significant before with
  | Some c =>
    cased U c &&
    match first_significant after with
    | Some d => negb (cased U d)
    | None => true
    end
  | None => false
  end.

Definition lower_at (before : list N) (c : N) (after : list N) : list N :=
  if c =? CAPITAL_SIGMA
  then [if final_sigma before after then FINAL_SIGMA else SMALL_SIGMA]
  else lower_full U c.

Fixpoint lower_from (before : list N) (s : list N) : list N :=
  match s with
  | [] => []
  | c :: s' => lower_at before c s' ++ lower_from (c :: before) s'
  end.

Definition lower (s : list N) : list N := lower_from [] s.

(** [text.upper()] has no contextual rule. *)
Definition upper (s : list N) : list N := List.flat_map (upper_full U) s.

(** *** [ArabicContentModerator.normalize_arabic_text] *)
Definition strip_diacritics (text : list N) : list N :=
  List.filter (fun char => combining U char =? 0) (nfkd text).

Definition normalize_letters (text : list N) : list N :=
  replace ALEF_HAMZA_BELOW [ALEF]
    (replace ALEF_HAMZA_ABOVE [ALEF]
      (replace TEH_MARBUTA [HEH]
        (replace ALEF_MAKSURA [YEH] text))).

Definition normalize_arabic_text (text : list N) : list N :=
  let text := strip_diacritics text in
  let text := normalize_letters text in
  lower (join [SPACE] (split text)).

End Unicode.

(** ** [ArabicContentModerator._compile_bad_words] *)

Open Scope string_scope.
Definition seed_bad_words : list (list N) := List.map pystr [
  "حمار"; "كلب"; "عاهر"; "زنية"; "كواد";
  "منيوج"; "خوات كحبة"; "كس"; "مأجور"; "عميل";
  "طيزك"; "طيز"; "عاهرة"; "زنا"; "كحبه";
  "منيوج"; "تلوزه"; "تلوزة"; "صرمك"; "صرم";
  "عرص"; "قحبة"; "منييجه"; "شرموطة"; "عير";
  "ايجت"; "منيجة"; "كسم"; "كلخ"; "kos";
  "kuss"; "khara"; "khara2"; "manyak"; "manak";
  "sharmota"; "ح م ا ر"; "ك ل ب"; "ع ا ه ر"
].
Close Scope string_scope.

(** The three letter substitutions of one word. *)
Definition variations (word : list N) : list (list N) :=
  [ replace ALEF [ALEF_HAMZA_ABOVE] word;
    replace ALEF [ALEF_HAMZA_BELOW] word;
    replace HEH [TEH_MARBUTA] word ].

(** One turn of the loop: the word, the word without spaces, and its
    variations are appended to [extended_words]. *)
Definition extend_with (extended_words : list (list N)) (word : list N)
  : list (list N) :=
  ((extended_words ++ [word]) ++ [replace SPACE [] word]) ++ variations word.

Definition compile_bad_words_from (bad_words : list (list N))
  : gset (list N) :=
  list_to_set (List.fold_left extend_with bad_words []).

Definition _compile_bad_words : gset (list N) :=
  compile_bad_words_from seed_bad_words.

(** The lexicon without the letter substitutions: the seed words and their
    space-free forms only. *)
Definition plain_bad_words_from (bad_words : list (list N))
  : gset (list N) :=
  list_to_set
    (List.flat_map (fun word => [word; replace SPACE [] word]) bad_words).

(** ** Effects

    The program prints, calls the generative model and calls the messaging
    platform; any of the calls may raise.  A computation takes the state
    of the world to an outcome and a new state. *)

Inductive exn :=
| Exception (msg : list N)            (* any instance of [Exception]; [msg] is [str(e)] *)
| SystemExit (code : N)               (* raised by [sys.exit] *)
| OtherBaseException (msg : list N).  (* outside [Exception]: not caught by the handlers *)

Definition is_Exception (e : exn) : bool :=
  match e with
  | Exception _ => true
  | _ => false
  end.

Definition exn_str (e : exn) : list N :=
  match e with
  | Exception msg => msg
  | OtherBaseException msg => msg
  | SystemExit code => pystr (NilEmpty.string_of_uint (N.to_uint code))
  end.

Inductive outcome (A : Type) :=
| Returns (a : A)
| Raises (e : exn).
Arguments Returns {A} a.
Arguments Raises {A} e.

(** A call that reached the messaging platform. *)
Inductive platform_call :=
| DeleteMessage (message_id : N)
| SendMessage (chat_id : Z) (text : list N) (parse_mode : list N).

Record world := {
  bad_words : gset (list N);       (* [self.bad_words] of the moderator *)
  stdout : list (list N);          (* the lines printed so far *)
  prompts : list (list N);         (* the prompts sent to the model so far *)
  calls : list platform_call       (* the platform calls made so far *)
}.

(** What [generate_content] hands back: reading [response.text] may raise
    as well (a blocked or empty reply). *)
Record response := { response_text : outcome (list N) }.

(** The behaviour of the remote services; it may depend on everything
    that happened before. *)
Record services := {
  generate_content : world -> list N -> outcome response;
  delete_message : world -> N -> outcome unit;
  send_message : world -> Z -> list N -> list N -> outcome unit
}.

Definition M (A : Type) : Type := world -> outcome A * world.

Definition ret {A} (a : A) : M A := fun w => (Returns a, w).

Definition raise {A} (e : exn) : M A := fun w => (Raises e, w).

Definition bind {A B} (m : M A) (k : A -> M B) : M B :=
  fun w =>
    match m w with
    | (Returns a, w') => k a w'
    | (Raises e, w') => (Raises e, w')
    end.

(** [try: m  except Exception as e: handler e]. *)
Definition try_except {A} (m : M A) (handler : exn -> M A) : M A :=
  fun w =>
    match m w with
    | (Returns a, w') => (Returns a, w')
    | (Raises e, w') =>
      if is_Exception e then handler e w' else (Raises e, w')
    end.

Notation "'let*' x ':=' m 'in' k" := (bind m (fun x => k))
  (at level 10, x name, m at level 100, k at level 200).
Notation "m >> k" := (bind m (fun _ => k))
  (at level 100, k at level 200, right associativity).

Definition print (line : list N) : M unit :=
  fun w =>
    (Returns tt,
     {| bad_words := bad_words w; stdout := stdout w ++ [line];
        prompts := prompts w; calls := calls w |}).

Definition sys_exit {A} (code : N) : M A := raise (SystemExit code).

Definition lift {A} (o : outcome A) : M A := fun w => (o, w).

Section Moderator.
Variable U : UCD.
Variable S : services.

(** [self.model.generate_content(prompt)]: the prompt leaves the process,
    then the service answers or fails. *)
Definition model_generate_content (prompt : list N) : M response :=
  fun w =>
    (generate_content S w prompt,
     {| bad_words := bad_words w; stdout := stdout w;
        prompts := prompts w ++ [prompt]; calls := calls w |}).

(** [update.message.delete()] and [bot.send_message(...)]: the call is
    recorded when the platform accepts it. *)
Definition message_delete (message_id : N) : M unit :=
  fun w =>
    match delete_message S w message_id with
    | Returns _ =>
      (Returns tt,
       {| bad_words := bad_words w; stdout := stdout w;
          prompts := prompts w;
          calls := calls w ++ [DeleteMessage message_id] |})
    | Raises e => (Raises e, w)
    end.

Definition bot_send_message (chat_id : Z) (text parse_mode : list N)
  : M unit :=
  fun w =>
    match send_message S w chat_id text parse_mode with
    | Returns _ =>
      (Returns tt,
       {| bad_words := bad_words w; stdout := stdout w;
          prompts := prompts w;
          calls := calls w ++ [SendMessage chat_id text parse_mode] |})
    | Raises e => (Raises e, w)
    end.

(** *** [ArabicContentModerator.__init__] *)
Definition moderator_init : M unit :=
  fun w =>
    (Returns tt,
     {| bad_words := _compile_bad_words; stdout := stdout w;
        prompts := prompts w; calls := calls w |}).

(** *** [ArabicContentModerator.contains_bad_words] *)

(** The loop over [self.bad_words]: it returns [True] at the first entry
    found in the normalised text. *)
Definition lexicon_match (lexicon : gset (list N))
    (normalized_text : list N) : bool :=
  List.existsb (fun bad_word => str_in (lower U bad_word) normalized_text)
    (elements lexicon).

Definition gemini_prompt (text : list N) : list N :=
  pystr "
            لا تمسح الرسالة اذا لم تتعرف على معنى الكلمة لاتمسح الرسائل اذا لم تعرف معناها
            .قم بتحليل النص تحليلا سهلا بالعربية وحدد الألفاظ الجنسية فقط مثل نيج و كس 
            لا تمسح السب العادي فقط السب القوي جدا
            Text: '" ++ text ++ pystr "'
            
            Provide a boolean response:
            - Respond with 'TRUE' if the text contains any inappropriate content
            - Respond with 'FALSE' if the text is completely clean
            
            Be extremely precise and consider cultural sensitivities.
            ".

Definition gemini_check (text : list N) : M bool :=
  try_except
    (let* response := model_generate_content (gemini_prompt text) in
     let* response_text_value := lift (response_text response) in
     ret (str_in (pystr "TRUE") (upper U response_text_value)))
    (fun e =>
       print (pystr "Gemini moderation check failed: " ++ exn_str e) >>
       ret false).

Definition contains_bad_words (text : list N) : M bool :=
  fun w =>
    let normalized_text := normalize_arabic_text U text in
    if lexicon_match (bad_words w) normalized_text
    then ret true w
    else gemini_check text w.

(** *** [ContentModerationBot.moderate_message] *)

Record message := {
  message_id : N;
  message_text : option (list N)      (* [None] for a message without text *)
}.

Record chat := { chat_id : Z }.

Record user := { mention_html : list N }.

Record update := {
  update_message : option message;
  effective_chat : option chat;
  effective_user : option user
}.

(** Attribute access on [None]. *)
Definition attribute_error {A} (attribute : string) : M A :=
  raise (Exception (pystr "'NoneType' object has no attribute '"
                    ++ pystr attribute ++ pystr "'")).

Definition delete_and_warn (update : update) (message : message) : M unit :=
  try_except
    (message_delete (message_id message) >>
     let* mention := match effective_user update with
                     | Some user => ret (mention_html user)
                     | None => attribute_error "mention_html"
                     end in
     let warning_message :=
       pystr "⚠️ تم حذف رسالة من " ++ mention ++ pystr " بسبب محتوى غير لائق." in
     let* chat_id_value := match effective_chat update with
                           | Some chat => ret (chat_id chat)
                           | None => attribute_error "id"
                           end in
     bot_send_message chat_id_value warning_message (pystr "HTML"))
    (fun delete_error =>
       print (pystr "Could not delete message: " ++ exn_str delete_error)).

Definition moderate_message (update : update) : M unit :=
  match update_message update with
  | None => ret tt
  | Some message =>
    match message_text message with
    | None => ret tt
    | Some [] => ret tt
    | Some message_text =>
      try_except
        (let* flagged := contains_bad_words message_text in
         if flagged then delete_and_warn update message else ret tt)
        (fun moderation_error =>
           print (pystr "Moderation check failed: "
                  ++ exn_str moderation_error))
    end
  end.

End Moderator.

(** ** [get_api_keys]

    The two credentials are constants of the source file that its user is
    to edit; [get_api_keys_with] is the body of the function with the two
    constants as arguments. *)
Definition get_api_keys_with
    (TELEGRAM_BOT_TOKEN GOOGLE_GEMINI_API_KEY : list N)
  : M (list N * list N) :=
  if str_eqb TELEGRAM_BOT_TOKEN (pystr "YOUR_TELEGRAM_BOT_TOKEN")
     || str_eqb GOOGLE_GEMINI_API_KEY (pystr "YOUR_GOOGLE_GEMINI_API_KEY")
  then
    print (pystr "❌ خطأ: يجب عليك استبدال مفاتيح API!") >>
    print (pystr "الخطوات للحصول على المفاتيح:") >>
    print (pystr "1. رمز بوت تليجرام: تحدث مع @BotFather على تليجرام") >>
    print (pystr "2. مفتاح Google Gemini API: زر https://makersuite.google.com/app/apikey") >>
    sys_exit 1
  else ret (TELEGRAM_BOT_TOKEN, GOOGLE_GEMINI_API_KEY).

Definition get_api_keys : M (list N * list N) :=
  get_api_keys_with (pystr "xxxxxxxxxxxxxxxz")
                    (pystr "AIzaSyAseXen26vnBIoaxxxxxxxxxxxxxx").

(** ** An excerpt of the Unicode Character Database

    The entries of version 14.0 of the database for the blocks Basic
    Latin, Latin-1 Supplement, Combining Diacritical Marks, Greek and
    Coptic, Arabic and Arabic Presentation Forms-B, for U+0130, U+0131 and
    for every white-space code point.  [ucd_excerpt] treats a code point
    outside these blocks as a caseless letter without decomposition; it
    serves to run the model on concrete texts. *)

Fixpoint assoc {A} (c : N) (table : list (N * A)) : option A :=
  match table with
  | [] => None
  | (k, v) :: table' => if c =? k then Some v else assoc c table'
  end.

Definition entry_or {A} (missing : A) (entry : option A) : A :=
  match entry with
  | Some v => v
  | None => missing
  end.

Definition in_ranges (c : N) (table : list (N * N)) : bool :=
  List.existsb (fun r => (fst r <=? c) && (c <=? snd r)) table.

(** Full compatibility decompositions. *)
Definition decomp_table : list (N * list N) := [
  (0xA0, [0x20]); (0xA8, [0x20; 0x308]); (0xAA, [0x61]);
  (0xAF, [0x20; 0x304]); (0xB2, [0x32]); (0xB3, [0x33]);
  (0xB4, [0x20; 0x301]); (0xB5, [0x3BC]); (0xB8, [0x20; 0x327]);
  (0xB9, [0x31]); (0xBA, [0x6F]); (0xBC, [0x31; 0x2044; 0x34]);
  (0xBD, [0x31; 0x2044; 0x32]); (0xBE, [0x33; 0x2044; 0x34]);
  (0xC0, [0x41; 0x300]); (0xC1, [0x41; 0x301]); (0xC2, [0x41; 0x302]);
  (0xC3, [0x41; 0x303]); (0xC4, [0x41; 0x308]); (0xC5, [0x41; 0x30A]);
  (0xC7, [0x43; 0x327]); (0xC8, [0x45; 0x300]); (0xC9, [0x45; 0x301]);
  (0xCA, [0x45; 0x302]); (0xCB, [0x45; 0x308]); (0xCC, [0x49; 0x300]);
  (0xCD, [0x49; 0x301]); (0xCE, [0x49; 0x302]); (0xCF, [0x49; 0x308]);
  (0xD1, [0x4E; 0x303]); (0xD2, [0x4F; 0x300]); (0xD3, [0x4F; 0x301]);
  (0xD4, [0x4F; 0x302]); (0xD5, [0x4F; 0x303]); (0xD6, [0x4F; 0x308]);
  (0xD9, [0x55; 0x300]); (0xDA, [0x55; 0x301]); (0xDB, [0x55; 0x302]);
  (0xDC, [0x55; 0x308]); (0xDD, [0x59; 0x301]); (0xE0, [0x61; 0x300]);
  (0xE1, [0x61; 0x301]); (0xE2, [0x61; 0x302]); (0xE3, [0x61; 0x303]);
  (0xE4, [0x61; 0x308]); (0xE5, [0x61; 0x30A]); (0xE7, [0x63; 0x327]);
  (0xE8, [0x65; 0x300]); (0xE9, [0x65; 0x301]); (0xEA, [0x65; 0x302]);
  (0xEB, [0x65; 0x308]); (0xEC, [0x69; 0x300]); (0xED, [0x69; 0x301]);
  (0xEE, [0x69; 0x302]); (0xEF, [0x69; 0x308]); (0xF1, [0x6E; 0x303]);
  (0xF2, [0x6F; 0x300]); (0xF3, [0x6F; 0x301]); (0xF4, [0x6F; 0x302]);
  (0xF5, [0x6F; 0x303]); (0xF6, [0x6F; 0x308]); (0xF9, [0x75; 0x300]);
  (0xFA, [0x75; 0x301]); (0xFB, [0x75; 0x302]); (0xFC, [0x75; 0x308]);
  (0xFD, [0x79; 0x301]); (0xFF, [0x79; 0x308]); (0x130, [0x49; 0x307]);
  (0x340, [0x300]); (0x341, [0x301]); (0x343, [0x313]);
  (0x344, [0x308; 0x301]); (0x374, [0x2B9]); (0x37A, [0x20; 0x345]);
  (0x37E, [0x3B]); (0x384, [0x20; 0x301]); (0x385, [0x20; 0x308; 0x301]);
  (0x386, [0x391; 0x301]); (0x387, [0xB7]); (0x388, [0x395; 0x301]);
  (0x389, [0x397; 0x301]); (0x38A, [0x399; 0x301]);
  (0x38C, [0x39F; 0x301]); (0x38E, [0x3A5; 0x301]);
  (0x38F, [0x3A9; 0x301]); (0x390, [0x3B9; 0x308; 0x301]);
  (0x3AA, [0x399; 0x308]); (0x3AB, [0x3A5; 0x308]);
  (0x3AC, [0x3B1; 0x301]); (0x3AD, [0x3B5; 0x301]);
  (0x3AE, [0x3B7; 0x301]); (0x3AF, [0x3B9; 0x301]);
  (0x3B0, [0x3C5; 0x308; 0x301]); (0x3CA, [0x3B9; 0x308]);
  (0x3CB, [0x3C5; 0x308]); (0x3CC, [0x3BF; 0x301]);
  (0x3CD, [0x3C5; 0x301]); (0x3CE, [0x3C9; 0x301]); (0x3D0, [0x3B2]);
  (0x3D1, [0x3B8]); (0x3D2, [0x3A5]); (0x3D3, [0x3A5; 0x301]);
  (0x3D4, [0x3A5; 0x308]); (0x3D5, [0x3C6]); (0x3D6, [0x3C0]);
  (0x3F0, [0x3BA]); (0x3F1, [0x3C1]); (0x3F2, [0x3C2]); (0x3F4, [0x398]);
  (0x3F5, [0x3B5]); (0x3F9, [0x3A3]); (0x622, [0x627; 0x653]);
  (0x623, [0x627; 0x654]); (0x624, [0x648; 0x654]);
  (0x625, [0x627; 0x655]); (0x626, [0x64A; 0x654]);
  (0x675, [0x627; 0x674]); (0x676, [0x648; 0x674]);
  (0x677, [0x6C7; 0x674]); (0x678, [0x64A; 0x674]);
  (0x6C0, [0x6D5; 0x654]); (0x6C2, [0x6C1; 0x654]);
  (0x6D3, [0x6D2; 0x654]); (0x2000, [0x20]); (0x2001, [0x20]);
  (0x2002, [0x20]); (0x2003, [0x20]); (0x2004, [0x20]); (0x2005, [0x20]);
  (0x2006, [0x20]); (0x2007, [0x20]); (0x2008, [0x20]); (0x2009, [0x20]);
  (0x200A, [0x20]); (0x202F, [0x20]); (0x205F, [0x20]); (0x3000, [0x20]);
  (0xFE70, [0x20; 0x64B]); (0xFE71, [0x640; 0x64B]);
  (0xFE72, [0x20; 0x64C]); (0xFE74, [0x20; 0x64D]);
  (0xFE76, [0x20; 0x64E]); (0xFE77, [0x640; 0x64E]);
  (0xFE78, [0x20; 0x64F]); (0xFE79, [0x640; 0x64F]);
  (0xFE7A, [0x20; 0x650]); (0xFE7B, [0x640; 0x650]);
  (0xFE7C, [0x20; 0x651]); (0xFE7D, [0x640; 0x651]);
  (0xFE7E, [0x20; 0x652]); (0xFE7F, [0x640; 0x652]); (0xFE80, [0x621]);
  (0xFE81, [0x627; 0x653]); (0xFE82, [0x627; 0x653]);
  (0xFE83, [0x627; 0x654]); (0xFE84, [0x627; 0x654]);
  (0xFE85, [0x648; 0x654]); (0xFE86, [0x648; 0x654]);
  (0xFE87, [0x627; 0x655]); (0xFE88, [0x627; 0x655]);
  (0xFE89, [0x64A; 0x654]); (0xFE8A, [0x64A; 0x654]);
  (0xFE8B, [0x64A; 0x654]); (0xFE8C, [0x64A; 0x654]); (0xFE8D, [0x627]);
  (0xFE8E, [0x627]); (0xFE8F, [0x628]); (0xFE90, [0x628]);
  (0xFE91, [0x628]); (0xFE92, [0x628]); (0xFE93, [0x629]);
  (0xFE94, [0x629]); (0xFE95, [0x62A]); (0xFE96, [0x62A]);
  (0xFE97, [0x62A]); (0xFE98, [0x62A]); (0xFE99, [0x62B]);
  (0xFE9A, [0x62B]); (0xFE9B, [0x62B]); (0xFE9C, [0x62B]);
  (0xFE9D, [0x62C]); (0xFE9E, [0x62C]); (0xFE9F, [0x62C]);
  (0xFEA0, [0x62C]); (0xFEA1, [0x62D]); (0xFEA2, [0x62D]);
  (0xFEA3, [0x62D]); (0xFEA4, [0x62D]); (0xFEA5, [0x62E]);
  (0xFEA6, [0x62E]); (0xFEA7, [0x62E]); (0xFEA8, [0x62E]);
  (0xFEA9, [0x62F]); (0xFEAA, [0x62F]); (0xFEAB, [0x630]);
  (0xFEAC, [0x630]); (0xFEAD, [0x631]); (0xFEAE, [0x631]);
  (0xFEAF, [0x632]); (0xFEB0, [0x632]); (0xFEB1, [0x633]);
  (0xFEB2, [0x633]); (0xFEB3, [0x633]); (0xFEB4, [0x633]);
  (0xFEB5, [0x634]); (0xFEB6, [0x634]); (0xFEB7, [0x634]);
  (0xFEB8, [0x634]); (0xFEB9, [0x635]); (0xFEBA, [0x635]);
  (0xFEBB, [0x635]); (0xFEBC, [0x635]); (0xFEBD, [0x636]);
  (0xFEBE, [0x636]); (0xFEBF, [0x636]); (0xFEC0, [0x636]);
  (0xFEC1, [0x637]); (0xFEC2, [0x637]); (0xFEC3, [0x637]);
  (0xFEC4, [0x637]); (0xFEC5, [0x638]); (0xFEC6, [0x638]);
  (0xFEC7, [0x638]); (0xFEC8, [0x638]); (0xFEC9, [0x639]);
  (0xFECA, [0x639]); (0xFECB, [0x639]); (0xFECC, [0x639]);
  (0xFECD, [0x63A]); (0xFECE, [0x63A]); (0xFECF, [0x63A]);
  (0xFED0, [0x63A]); (0xFED1, [0x641]); (0xFED2, [0x641]);
  (0xFED3, [0x641]); (0xFED4, [0x641]); (0xFED5, [0x642]);
  (0xFED6, [0x642]); (0xFED7, [0x642]); (0xFED8, [0x642]);
  (0xFED9, [0x643]); (0xFEDA, [0x643]); (0xFEDB, [0x643]);
  (0xFEDC, [0x643]); (0xFEDD, [0x644]); (0xFEDE, [0x644]);
  (0xFEDF, [0x644]); (0xFEE0, [0x644]); (0xFEE1, [0x645]);
  (0xFEE2, [0x645]); (0xFEE3, [0x645]); (0xFEE4, [0x645]);
  (0xFEE5, [0x646]); (0xFEE6, [0x646]); (0xFEE7, [0x646]);
  (0xFEE8, [0x646]); (0xFEE9, [0x647]); (0xFEEA, [0x647]);
  (0xFEEB, [0x647]); (0xFEEC, [0x647]); (0xFEED, [0x648]);
  (0xFEEE, [0x648]); (0xFEEF, [0x649]); (0xFEF0, [0x649]);
  (0xFEF1, [0x64A]); (0xFEF2, [0x64A]); (0xFEF3, [0x64A]);
  (0xFEF4, [0x64A]); (0xFEF5, [0x644; 0x627; 0x653]);
  (0xFEF6, [0x644; 0x627; 0x653]); (0xFEF7, [0x644; 0x627; 0x654]);
  (0xFEF8, [0x644; 0x627; 0x654]); (0xFEF9, [0x644; 0x627; 0x655]);
  (0xFEFA, [0x644; 0x627; 0x655]); (0xFEFB, [0x644; 0x627]);
  (0xFEFC, [0x644; 0x627])
].

(** Non-zero canonical combining classes. *)
Definition combining_table : list (N * N) := [
  (0x300, 230); (0x301, 230); (0x302, 230); (0x303, 230); (0x304, 230);
  (0x305, 230); (0x306, 230); (0x307, 230); (0x308, 230); (0x309, 230);
  (0x30A, 230); (0x30B, 230); (0x30C, 230); (0x30D, 230); (0x30E, 230);
  (0x30F, 230); (0x310, 230); (0x311, 230); (0x312, 230); (0x313, 230);
  (0x314, 230); (0x315, 232); (0x316, 220); (0x317, 220); (0x318, 220);
  (0x319, 220); (0x31A, 232); (0x31B, 216); (0x31C, 220); (0x31D, 220);
  (0x31E, 220); (0x31F, 220); (0x320, 220); (0x321, 202); (0x322, 202);
  (0x323, 220); (0x324, 220); (0x325, 220); (0x326, 220); (0x327, 202);
  (0x328, 202); (0x329, 220); (0x32A, 220); (0x32B, 220); (0x32C, 220);
  (0x32D, 220); (0x32E, 220); (0x32F, 220); (0x330, 220); (0x331, 220);
  (0x332, 220); (0x333, 220); (0x334, 1); (0x335, 1); (0x336, 1);
  (0x337, 1); (0x338, 1); (0x339, 220); (0x33A, 220); (0x33B, 220);
  (0x33C, 220); (0x33D, 230); (0x33E, 230); (0x33F, 230); (0x340, 230);
  (0x341, 230); (0x342, 230); (0x343, 230); (0x344, 230); (0x345, 240);
  (0x346, 230); (0x347, 220); (0x348, 220); (0x349, 220); (0x34A, 230);
  (0x34B, 230); (0x34C, 230); (0x34D, 220); (0x34E, 220); (0x350, 230);
  (0x351, 230); (0x352, 230); (0x353, 220); (0x354, 220); (0x355, 220);
  (0x356, 220); (0x357, 230); (0x358, 232); (0x359, 220); (0x35A, 220);
  (0x35B, 230); (0x35C, 233); (0x35D, 234); (0x35E, 234); (0x35F, 233);
  (0x360, 234); (0x361, 234); (0x362, 233); (0x363, 230); (0x364, 230);
  (0x365, 230); (0x366, 230); (0x367, 230); (0x368, 230); (0x369, 230);
  (0x36A, 230); (0x36B, 230); (0x36C, 230); (0x36D, 230); (0x36E, 230);
  (0x36F, 230); (0x610, 230); (0x611, 230); (0x612, 230); (0x613, 230);
  (0x614, 230); (0x615, 230); (0x616, 230); (0x617, 230); (0x618, 30);
  (0x619, 31); (0x61A, 32); (0x64B, 27); (0x64C, 28); (0x64D, 29);
  (0x64E, 30); (0x64F, 31); (0x650, 32); (0x651, 33); (0x652, 34);
  (0x653, 230); (0x654, 230); (0x655, 220); (0x656, 220); (0x657, 230);
  (0x658, 230); (0x659, 230); (0x65A, 230); (0x65B, 230); (0x65C, 220);
  (0x65D, 230); (0x65E, 230); (0x65F, 220); (0x670, 35); (0x6D6, 230);
  (0x6D7, 230); (0x6D8, 230); (0x6D9, 230); (0x6DA, 230); (0x6DB, 230);
  (0x6DC, 230); (0x6DF, 230); (0x6E0, 230); (0x6E1, 230); (0x6E2, 230);
  (0x6E3, 220); (0x6E4, 230); (0x6E7, 230); (0x6E8, 230); (0x6EA, 220);
  (0x6EB, 230); (0x6EC, 230); (0x6ED, 220)
].

(** White space, as inclusive ranges. *)
Definition space_table : list (N * N) := [
  (0x9, 0xD); (0x1C, 0x20); (0x85, 0x85); (0xA0, 0xA0); (0x1680, 0x1680);
  (0x2000, 0x200A); (0x2028, 0x2029); (0x202F, 0x202F); (0x205F, 0x205F);
  (0x3000, 0x3000)
].

(** Full lowercase mappings that change the code point. *)
Definition lower_table : list (N * list N) := [
  (0x41, [0x61]); (0x42, [0x62]); (0x43, [0x63]); (0x44, [0x64]);
  (0x45, [0x65]); (0x46, [0x66]); (0x47, [0x67]); (0x48, [0x68]);
  (0x49, [0x69]); (0x4A, [0x6A]); (0x4B, [0x6B]); (0x4C, [0x6C]);
  (0x4D, [0x6D]); (0x4E, [0x6E]); (0x4F, [0x6F]); (0x50, [0x70]);
  (0x51, [0x71]); (0x52, [0x72]); (0x53, [0x73]); (0x54, [0x74]);
  (0x55, [0x75]); (0x56, [0x76]); (0x57, [0x77]); (0x58, [0x78]);
  (0x59, [0x79]); (0x5A, [0x7A]); (0xC0, [0xE0]); (0xC1, [0xE1]);
  (0xC2, [0xE2]); (0xC3, [0xE3]); (0xC4, [0xE4]); (0xC5, [0xE5]);
  (0xC6, [0xE6]); (0xC7, [0xE7]); (0xC8, [0xE8]); (0xC9, [0xE9]);
  (0xCA, [0xEA]); (0xCB, [0xEB]); (0xCC, [0xEC]); (0xCD, [0xED]);
  (0xCE, [0xEE]); (0xCF, [0xEF]); (0xD0, [0xF0]); (0xD1, [0xF1]);
  (0xD2, [0xF2]); (0xD3, [0xF3]); (0xD4, [0xF4]); (0xD5, [0xF5]);
  (0xD6, [0xF6]); (0xD8, [0xF8]); (0xD9, [0xF9]); (0xDA, [0xFA]);
  (0xDB, [0xFB]); (0xDC, [0xFC]); (0xDD, [0xFD]); (0xDE, [0xFE]);
  (0x130, [0x69; 0x307]); (0x370, [0x371]); (0x372, [0x373]);
  (0x376, [0x377]); (0x37F, [0x3F3]); (0x386, [0x3AC]); (0x388, [0x3AD]);
  (0x389, [0x3AE]); (0x38A, [0x3AF]); (0x38C, [0x3CC]); (0x38E, [0x3CD]);
  (0x38F, [0x3CE]); (0x391, [0x3B1]); (0x392, [0x3B2]); (0x393, [0x3B3]);
  (0x394, [0x3B4]); (0x395, [0x3B5]); (0x396, [0x3B6]); (0x397, [0x3B7]);
  (0x398, [0x3B8]); (0x399, [0x3B9]); (0x39A, [0x3BA]); (0x39B, [0x3BB]);
  (0x39C, [0x3BC]); (0x39D, [0x3BD]); (0x39E, [0x3BE]); (0x39F, [0x3BF]);
  (0x3A0, [0x3C0]); (0x3A1, [0x3C1]); (0x3A3, [0x3C3]); (0x3A4, [0x3C4]);
  (0x3A5, [0x3C5]); (0x3A6, [0x3C6]); (0x3A7, [0x3C7]); (0x3A8, [0x3C8]);
  (0x3A9, [0x3C9]); (0x3AA, [0x3CA]); (0x3AB, [0x3CB]); (0x3CF, [0x3D7]);
  (0x3D8, [0x3D9]); (0x3DA, [0x3DB]); (0x3DC, [0x3DD]); (0x3DE, [0x3DF]);
  (0x3E0, [0x3E1]); (0x3E2, [0x3E3]); (0x3E4, [0x3E5]); (0x3E6, [0x3E7]);
  (0x3E8, [0x3E9]); (0x3EA, [0x3EB]); (0x3EC, [0x3ED]); (0x3EE, [0x3EF]);
  (0x3F4, [0x3B8]); (0x3F7, [0x3F8]); (0x3F9, [0x3F2]); (0x3FA, [0x3FB]);
  (0x3FD, [0x37B]); (0x3FE, [0x37C]); (0x3FF, [0x37D])
].

(** Full uppercase mappings that change the code point. *)
Definition upper_table : list (N * list N) := [
  (0x61, [0x41]); (0x62, [0x42]); (0x63, [0x43]); (0x64, [0x44]);
  (0x65, [0x45]); (0x66, [0x46]); (0x67, [0x47]); (0x68, [0x48]);
  (0x69, [0x49]); (0x6A, [0x4A]); (0x6B, [0x4B]); (0x6C, [0x4C]);
  (0x6D, [0x4D]); (0x6E, [0x4E]); (0x6F, [0x4F]); (0x70, [0x50]);
  (0x71, [0x51]); (0x72, [0x52]); (0x73, [0x53]); (0x74, [0x54]);
  (0x75, [0x55]); (0x76, [0x56]); (0x77, [0x57]); (0x78, [0x58]);
  (0x79, [0x59]); (0x7A, [0x5A]); (0xB5, [0x39C]); (0xDF, [0x53; 0x53]);
  (0xE0, [0xC0]); (0xE1, [0xC1]); (0xE2, [0xC2]); (0xE3, [0xC3]);
  (0xE4, [0xC4]); (0xE5, [0xC5]); (0xE6, [0xC6]); (0xE7, [0xC7]);
  (0xE8, [0xC8]); (0xE9, [0xC9]); (0xEA, [0xCA]); (0xEB, [0xCB]);
  (0xEC, [0xCC]); (0xED, [0xCD]); (0xEE, [0xCE]); (0xEF, [0xCF]);
  (0xF0, [0xD0]); (0xF1, [0xD1]); (0xF2, [0xD2]); (0xF3, [0xD3]);
  (0xF4, [0xD4]); (0xF5, [0xD5]); (0xF6, [0xD6]); (0xF8, [0xD8]);
  (0xF9, [0xD9]); (0xFA, [0xDA]); (0xFB, [0xDB]); (0xFC, [0xDC]);
  (0xFD, [0xDD]); (0xFE, [0xDE]); (0xFF, [0x178]); (0x131, [0x49]);
  (0x345, [0x399]); (0x371, [0x370]); (0x373, [0x372]); (0x377, [0x376]);
  (0x37B, [0x3FD]); (0x37C, [0x3FE]); (0x37D, [0x3FF]);
  (0x390, [0x399; 0x308; 0x301]); (0x3AC, [0x386]); (0x3AD, [0x388]);
  (0x3AE, [0x389]); (0x3AF, [0x38A]); (0x3B0, [0x3A5; 0x308; 0x301]);
  (0x3B1, [0x391]); (0x3B2, [0x392]); (0x3B3, [0x393]); (0x3B4, [0x394]);
  (0x3B5, [0x395]); (0x3B6, [0x396]); (0x3B7, [0x397]); (0x3B8, [0x398]);
  (0x3B9, [0x399]); (0x3BA, [0x39A]); (0x3BB, [0x39B]); (0x3BC, [0x39C]);
  (0x3BD, [0x39D]); (0x3BE, [0x39E]); (0x3BF, [0x39F]); (0x3C0, [0x3A0]);
  (0x3C1, [0x3A1]); (0x3C2, [0x3A3]); (0x3C3, [0x3A3]); (0x3C4, [0x3A4]);
  (0x3C5, [0x3A5]); (0x3C6, [0x3A6]); (0x3C7, [0x3A7]); (0x3C8, [0x3A8]);
  (0x3C9, [0x3A9]); (0x3CA, [0x3AA]); (0x3CB, [0x3AB]); (0x3CC, [0x38C]);
  (0x3CD, [0x38E]); (0x3CE, [0x38F]); (0x3D0, [0x392]); (0x3D1, [0x398]);
  (0x3D5, [0x3A6]); (0x3D6, [0x3A0]); (0x3D7, [0x3CF]); (0x3D9, [0x3D8]);
  (0x3DB, [0x3DA]); (0x3DD, [0x3DC]); (0x3DF, [0x3DE]); (0x3E1, [0x3E0]);
  (0x3E3, [0x3E2]); (0x3E5, [0x3E4]); (0x3E7, [0x3E6]); (0x3E9, [0x3E8]);
  (0x3EB, [0x3EA]); (0x3ED, [0x3EC]); (0x3EF, [0x3EE]); (0x3F0, [0x39A]);
  (0x3F1, [0x3A1]); (0x3F2, [0x3F9]); (0x3F3, [0x37F]); (0x3F5, [0x395]);
  (0x3F8, [0x3F7]); (0x3FB, [0x3FA])
].

(** [Cased], [Case_Ignorable] and [Lu], as inclusive ranges. *)
Definition cased_table : list (N * N) := [
  (0x41, 0x5A); (0x61, 0x7A); (0xAA, 0xAA); (0xB5, 0xB5); (0xBA, 0xBA);
  (0xC0, 0xD6); (0xD8, 0xF6); (0xF8, 0xFF); (0x130, 0x131); (0x345, 0x345);
  (0x370, 0x373); (0x376, 0x377); (0x37A, 0x37D); (0x37F, 0x37F);
  (0x386, 0x386); (0x388, 0x38A); (0x38C, 0x38C); (0x38E, 0x3A1);
  (0x3A3, 0x3F5); (0x3F7, 0x3FF)
].

Definition case_ignorable_table : list (N * N) := [
  (0x27, 0x27); (0x2E, 0x2E); (0x3A, 0x3A); (0x5E, 0x5E); (0x60, 0x60);
  (0xA8, 0xA8); (0xAD, 0xAD); (0xAF, 0xAF); (0xB4, 0xB4); (0xB7, 0xB8);
  (0x300, 0x36F); (0x374, 0x375); (0x37A, 0x37A); (0x384, 0x385);
  (0x387, 0x387); (0x600, 0x605); (0x610, 0x61A); (0x61C, 0x61C);
  (0x640, 0x640); (0x64B, 0x65F); (0x670, 0x670); (0x6D6, 0x6DD);
  (0x6DF, 0x6E8); (0x6EA, 0x6ED); (0xFEFF, 0xFEFF)
].

Definition Lu_table : list (N * N) := [
  (0x41, 0x5A); (0xC0, 0xD6); (0xD8, 0xDE); (0x130, 0x130); (0x370, 0x370);
  (0x372, 0x372); (0x376, 0x376); (0x37F, 0x37F); (0x386, 0x386);
  (0x388, 0x38A); (0x38C, 0x38C); (0x38E, 0x38F); (0x391, 0x3A1);
  (0x3A3, 0x3AB); (0x3CF, 0x3CF); (0x3D2, 0x3D4); (0x3D8, 0x3D8);
  (0x3DA, 0x3DA); (0x3DC, 0x3DC); (0x3DE, 0x3DE); (0x3E0, 0x3E0);
  (0x3E2, 0x3E2); (0x3E4, 0x3E4); (0x3E6, 0x3E6); (0x3E8, 0x3E8);
  (0x3EA, 0x3EA); (0x3EC, 0x3EC); (0x3EE, 0x3EE); (0x3F4, 0x3F4);
  (0x3F7, 0x3F7); (0x3F9, 0x3FA); (0x3FD, 0x3FF)
].

Definition ucd_excerpt : UCD := {|
  decomp c := entry_or [c] (assoc c decomp_table);
  combining c := entry_or 0 (assoc c combining_table);
  is_space c := in_ranges c space_table;
  lower_full c := entry_or [c] (assoc c lower_table);
  upper_full c := entry_or [c] (assoc c upper_table);
  cased c := in_ranges c cased_table;
  case_ignorable c := in_ranges c case_ignorable_table;
  is_Lu c := in_ranges c Lu_table
|}.

(** ** Vocabulary of the statements *)

(** The four letters [normalize_letters] rewrites, and what each becomes. *)
Definition variant_letter (c : N) : bool :=
  (c =? ALEF_MAKSURA) || (c =? TEH_MARBUTA)
  || (c =? ALEF_HAMZA_ABOVE) || (c =? ALEF_HAMZA_BELOW).

Definition canonical_letter (c : N) : N :=
  if c =? ALEF_MAKSURA then YEH
  else if c =? TEH_MARBUTA then HEH
  else if c =? ALEF_HAMZA_ABOVE then ALEF
  else if c =? ALEF_HAMZA_BELOW then ALEF
  else c.

(** The letters of the lexicon that normalisation leaves alone: the Arabic
    letters U+0621..U+064A other than the five with a hamza or madda
    decomposition (U+0622..U+0626), Latin small letters and digits. *)
Definition plain_letter (c : N) : bool :=
  ((0x621 <=? c) && (c <=? 0x64A) && negb ((0x622 <=? c) && (c <=? 0x626)))
  || ((0x61 <=? c) && (c <=? 0x7A))
  || ((0x30 <=? c) && (c <=? 0x39)).

(** [t] occurs in [s] as a contiguous substring. *)
Definition substring (t s : list N) : Prop :=
  exists before after, s = before ++ t ++ after.

(** A code point NFKD and the diacritic filter keep as it is. *)
Definition stable (U : UCD) (c : N) : Prop :=
  decomp U c = [c] /\ combining U c = 0.

(** A code point no step of the normaliser changes. *)
Definition settled (U : UCD) (c : N) : Prop :=
  stable U c /\ lower_full U c = [c] /\ is_Lu U c = false
  /\ variant_letter c = false.

(** A letter that passes through the normaliser untouched wherever it
    stands. *)
Definition solid (U : UCD) (c : N) : Prop :=
  stable U c /\ lower_full U c = [c] /\ is_space U c = false
  /\ variant_letter c = false /\ c <> CAPITAL_SIGMA.

(** A non-empty run without white space. *)
Definition word (U : UCD) (w : list N) : Prop :=
  w <> [] /\ Forall (fun c => is_space U c = false) w.

(** Words joined by single spaces, made of settled code points. *)
Definition normal_form (U : UCD) (s : list N) : Prop :=
  (exists words, Forall (word U) words /\ s = join [SPACE] words)
  /\ Forall (settled U) s.

(** What [lower] may put in the place of one code point. *)
Definition lowered (U : UCD) (c : N) (chunk : list N) : Prop :=
  (c <> CAPITAL_SIGMA /\ chunk = lower_full U c)
  \/ (c = CAPITAL_SIGMA /\ (chunk = [SMALL_SIGMA] \/ chunk = [FINAL_SIGMA])).


(** The facts of the Unicode Character Database the proofs rely on.  Each
    is a statement about single code points. *)
Record ucd_laws (U : UCD) : Prop := {
  (** a full decomposition does not decompose further *)
  decomp_full : forall c d, d ∈ decomp U c -> decomp U d = [d];
  (** U+0020 is white space, has no decomposition and no case *)
  space_is_space : is_space U SPACE = true;
  space_stable : stable U SPACE;
  space_lower : lower_full U SPACE = [SPACE];
  (** alef, heh and yeh are base letters *)
  canonical_stable : forall c, c ∈ [ALEF; HEH; YEH] -> stable U c;
  (** no lowercase mapping is empty *)
  lower_nonempty : forall c, lower_full U c <> [];
  (** capital sigma maps to small sigma; both small sigmas are lowercase
      base letters *)
  lower_sigma : lower_full U CAPITAL_SIGMA = [SMALL_SIGMA];
  sigma_settled : forall d, d ∈ [SMALL_SIGMA; FINAL_SIGMA] ->
    settled U d /\ is_space U d = false;
  (** the lowercase mapping of a code point without decomposition and of
      combining class 0 consists of such code points; they are lowercase
      already, are no uppercase letters, and are white space or one of
      the four variant letters only if the code point itself is *)
  lower_closed : forall c d, stable U c -> d ∈ lower_full U c ->
    stable U d /\ lower_full U d = [d] /\ is_Lu U d = false
    /\ (is_space U d = true -> is_space U c = true)
    /\ (variant_letter d = true -> d = c);
  (** Arabic has no case *)
  variant_caseless : forall c, variant_letter c = true ->
    lower_full U c = [c];
  (** the plain letters are caseless (or lowercase) base letters *)
  plain_settled : forall c, plain_letter c = true ->
    stable U c /\ lower_full U c = [c] /\ is_Lu U c = false
    /\ is_space U c = false
}.

(** The check that a lexicon entry is words of plain letters joined by
    single spaces; it does not consult the database. *)
Definition plain_words (w : list N) : list (list N) :=
  split_from (N.eqb SPACE) [] w.

Definition plain_form (w : list N) : bool :=
  str_eqb (join [SPACE] (plain_words w)) w
  && List.forallb (List.forallb plain_letter) (plain_words w).

(** ** Sample services and states, for concrete runs *)

(** The model is unreachable and the platform accepts every call. *)
Definition services_down : services := {|
  generate_content := fun _ _ =>
    Raises (Exception (pystr "503 Service Unavailable"));
  delete_message := fun _ _ => Returns tt;
  send_message := fun _ _ _ _ => Returns tt
|}.

(** The model answers with the given text. *)
Definition services_answering (answer : list N) : services := {|
  generate_content := fun _ _ =>
    Returns {| response_text := Returns answer |};
  delete_message := fun _ _ => Returns tt;
  send_message := fun _ _ _ _ => Returns tt
|}.

(** The state right after the moderator is constructed. *)
Definition startup : world := {|
  bad_words := _compile_bad_words;
  stdout := [];
  prompts := [];
  calls := []
|}.

(** ** Checks on the tables of the excerpt *)

(** The code points from [lo] to [hi]. *)
Definition N_range (lo hi : N) : list N :=
  List.map N.of_nat (List.seq (N.to_nat lo) (N.to_nat (hi + 1 - lo))).

Definition stableb (U : UCD) (c : N) : bool :=
  str_eqb (decomp U c) [c] && (combining U c =? 0).

Definition settledb (U : UCD) (c : N) : bool :=
  stableb U c && str_eqb (lower_full U c) [c] && negb (is_Lu U c)
  && negb (variant_letter c).

(** What [lower_closed] asks of one code point [d] of the lowercase
    mapping of [c]. *)
Definition lower_closedb (U : UCD) (c d : N) : bool :=
  stableb U d && str_eqb (lower_full U d) [d] && negb (is_Lu U d)
  && implb (is_space U d) (is_space U c)
  && implb (variant_letter d) (d =? c).

(** ** Vocabulary of the further properties *)

(** What the diacritic filter and the letter normalisation leave of one
    code point of the input. *)
Definition letters_of (U : UCD) (c : N) : list N :=
  List.map canonical_letter
    (List.filter (fun char => combining U char =? 0) (decomp U c)).

(** A code point whose decomposition consists of code points of non-zero
    combining class only, such as the Arabic tashkeel and the accents of
    U+0300..U+036F: the filter drops it.  Marks of combining class 0 are
    not of this kind. *)
Definition classed_mark (U : UCD) (m : N) : bool :=
  List.forallb (fun d => negb (combining U d =? 0)) (decomp U m).

(** [with_marks U s s']: [s'] is [s] with such marks put in anywhere. *)
Inductive with_marks (U : UCD) : list N -> list N -> Prop :=
| with_marks_nil : with_marks U [] []
| with_marks_keep c s s' :
    with_marks U s s' -> with_marks U (c :: s) (c :: s')
| with_marks_mark m s s' :
    classed_mark U m = true -> with_marks U s s' -> with_marks U s (m :: s').




(** Uppercase of a Basic Latin letter. *)
Definition ascii_upper (c : N) : N :=
  if (0x61 <=? c) && (c <=? 0x7A) then c - 32 else c.

(** The warning [moderate_message] posts for a sender. *)
Definition warning_message (mention : list N) : list N :=
  pystr "⚠️ تم حذف رسالة من " ++ mention ++ pystr " بسبب محتوى غير لائق.".

(** The state after one more platform call, one more prompt, one more
    printed line. *)
Definition record_call (call : platform_call) (w : world) : world :=
  {| bad_words := bad_words w; stdout := stdout w; prompts := prompts w;
     calls := calls w ++ [call] |}.

Definition record_prompt (prompt : list N) (w : world) : world :=
  {| bad_words := bad_words w; stdout := stdout w;
     prompts := prompts w ++ [prompt]; calls := calls w |}.

Definition record_line (line : list N) (w : world) : world :=
  {| bad_words := bad_words w; stdout := stdout w ++ [line];
     prompts := prompts w; calls := calls w |}.

(** The platform refuses to delete, e.g. for lack of admin rights. *)
Definition services_delete_denied : services := {|
  generate_content := fun _ _ =>
    Raises (Exception (pystr "503 Service Unavailable"));
  delete_message := fun _ _ =>
    Raises (Exception (pystr "Message can't be deleted"));
  send_message := fun _ _ _ _ => Returns tt
|}.

(** The platform deletes but refuses to post. *)
Definition services_send_denied : services := {|
  generate_content := fun _ _ =>
    Raises (Exception (pystr "503 Service Unavailable"));
  delete_message := fun _ _ => Returns tt;
  send_message := fun _ _ _ _ =>
    Raises (Exception (pystr "Forbidden: bot was kicked"))
|}.

(** An update carrying message 7 with the given text, from Sam in chat -100. *)
Definition sample_update (text : list N) : update := {|
  update_message := Some {| message_id := 7; message_text := Some text |};
  effective_chat := Some {| chat_id := (-100)%Z |};
  effective_user := Some {| mention_html := pystr "Sam" |}
|}.

(** * Proofs *)

(** ** Strings *)

Example pystr_kalb : pystr "كلب" = [0x643; 0x644; 0x628].
Proof. reflexivity. Qed.

Example pystr_khara2 : pystr "khara2" = [0x6B; 0x68; 0x61; 0x72; 0x61; 0x32].
Proof. reflexivity. Qed.

Lemma str_eqb_eq a b : str_eqb a b = true <-> a = b.
Proof.
  revert b. induction a as [|x a IH]; intros [|y b]; simpl; try easy.
  rewrite andb_true_iff, N.eqb_eq, IH. split.
  - intros [-> ->]. reflexivity.
  - intros [= -> ->]. auto.
Qed.

Lemma starts_with_spec w t :
  starts_with w t = true <-> exists after, t = w ++ after.
Proof.
  revert t. induction w as [|a w IH]; intros t; simpl.
  - split; [intros _; exists t; reflexivity | reflexivity].
  - destruct t as [|b t].
    + split; [discriminate | intros [after H]; discriminate].
    + rewrite andb_true_iff, N.eqb_eq, IH. split.
      * intros [-> [after ->]]. exists after. reflexivity.
      * intros [after [= -> ->]]. eauto.
Qed.

Lemma str_in_spec w t : str_in w t = true <-> substring w t.
Proof.
  unfold substring. induction t as [|b t IH]; simpl.
  - rewrite orb_false_r, starts_with_spec. split.
    + intros [after H]. exists [], after. exact H.
    + intros [before [after H]]. destruct before as [|x before].
      * exists after. exact H.
      * discriminate.
  - rewrite orb_true_iff, starts_with_spec, IH. split.
    + intros [[after H] | [before [after H]]].
      * exists [], after. exact H.
      * exists (b :: before), after. simpl. congruence.
    + intros [[|x before] [after H]].
      * left. exists after. exact H.
      * right. injection H as -> ->. eauto.
Qed.

Lemma substring_elem t s c : substring t s -> c ∈ t -> c ∈ s.
Proof.
  intros [before [after ->]] Hc. rewrite !elem_of_app. auto.
Qed.

Lemma elem_of_replace old new s c :
  c ∈ replace old new s <-> (c ∈ new /\ old ∈ s) \/ (c ∈ s /\ c <> old).
Proof.
  unfold replace. induction s as [|x s IH]; simpl.
  - rewrite !elem_of_nil. tauto.
  - rewrite elem_of_app, IH, !elem_of_cons.
    destruct (N.eqb_spec x old) as [->|Hne].
    + split.
      * intros [H|[[H1 H2]|[H1 H2]]]; auto.
      * intros [[H1 H2]|[[H1|H1] H2]]; auto. congruence.
    + rewrite list_elem_of_singleton. split.
      * intros [H|[[H1 H2]|[H1 H2]]]; subst; auto.
      * intros [[H1 [H2|H2]]|[[H1|H1] H2]]; subst; auto. congruence.
Qed.

Lemma replace_absent old new s : old ∉ s -> replace old new s = s.
Proof.
  unfold replace. induction s as [|x s IH]; simpl; intros H; [reflexivity|].
  rewrite not_elem_of_cons in H. destruct H as [H1 H2].
  destruct (N.eqb_spec x old) as [->|_]; [congruence|].
  simpl. f_equal. auto.
Qed.

Lemma replace_letter old new s :
  replace old [new] s = List.map (fun c => if c =? old then new else c) s.
Proof.
  unfold replace. induction s as [|x s IH]; simpl; [reflexivity|].
  rewrite IH. destruct (x =? old); reflexivity.
Qed.

Lemma join_cons sep w ws :
  ws <> [] -> join sep (w :: ws) = w ++ sep ++ join sep ws.
Proof. destruct ws; [congruence | reflexivity]. Qed.


Lemma elem_of_join sep ws c :
  c ∈ join sep ws -> c ∈ sep \/ exists w, w ∈ ws /\ c ∈ w.
Proof.
  induction ws as [|w ws IH]; simpl.
  - intros H. now apply elem_of_nil in H.
  - destruct ws as [|w' ws].
    + intros H. right. exists w. split; [left | exact H].
    + rewrite !elem_of_app. intros [H|[H|H]].
      * right. exists w. split; [left | exact H].
      * left. exact H.
      * destruct (IH H) as [H'|[v [Hv Hc]]]; [left; exact H'|].
        right. exists v. split; [right; exact Hv | exact Hc].
Qed.

(** ** Splitting and joining *)

Section Split.
Variable space : N -> bool.

Let nonspace (c : N) : Prop := space c = false.
Let run (w : list N) : Prop := w <> [] /\ Forall nonspace w.

Lemma split_from_run w word rest :
  Forall nonspace w ->
  split_from space word (w ++ rest) = split_from space (word ++ w) rest.
Proof.
  intros Hw. revert word. induction Hw as [|c w Hc _ IH]; intros word; simpl.
  - now rewrite app_nil_r.
  - unfold nonspace in Hc. rewrite Hc, IH, <- app_assoc. reflexivity.
Qed.

Lemma split_join sp words :
  space sp = true -> Forall run words ->
  split_from space [] (join [sp] words) = words.
Proof.
  intros Hsp. induction 1 as [|w ws [Hne Hw] Hws IH]; [reflexivity|].
  destruct ws as [|w' ws].
  - simpl join. rewrite <- (app_nil_r w) at 1.
    rewrite split_from_run by exact Hw.
    simpl. destruct w; [congruence | reflexivity].
  - rewrite join_cons by discriminate.
    rewrite split_from_run by exact Hw.
    change (split_from space w (sp :: join [sp] (w' :: ws)) = w :: w' :: ws).
    cbn [split_from]. rewrite Hsp, IH.
    destruct w; [congruence | reflexivity].
Qed.

Lemma split_from_runs word s :
  Forall nonspace word -> Forall run (split_from space word s).
Proof.
  revert word. induction s as [|c s IH]; intros word Hword; simpl.
  - destruct word; simpl; [constructor|].
    constructor; [split; [discriminate | exact Hword] | constructor].
  - destruct (space c) eqn:Hc.
    + specialize (IH [] (Forall_nil_2 _)).
      destruct word; simpl; [exact IH|].
      constructor; [split; [discriminate | exact Hword] | exact IH].
    + apply IH. apply Forall_app. split; [exact Hword|].
      constructor; [exact Hc | constructor].
Qed.

Lemma elem_of_split_from word s w c :
  w ∈ split_from space word s -> c ∈ w -> c ∈ word \/ c ∈ s.
Proof.
  revert word. induction s as [|x s IH]; intros word; simpl.
  - destruct word; simpl.
    + intros H. now apply elem_of_nil in H.
    + rewrite list_elem_of_singleton. intros -> Hc. left. exact Hc.
  - destruct (space x).
    + intros Hw Hc.
      assert (w = word \/ w ∈ split_from space [] s) as [->|Hw'].
      { destruct word; simpl in Hw; [right; exact Hw|].
        apply elem_of_cons in Hw. exact Hw. }
      * left. exact Hc.
      * destruct (IH [] Hw' Hc) as [H|H].
        -- now apply elem_of_nil in H.
        -- right. right. exact H.
    + intros Hw Hc. destruct (IH _ Hw Hc) as [H|H].
      * apply elem_of_app in H as [H|H]; [left; exact H|].
        apply list_elem_of_singleton in H as ->. right. left.
      * right. right. exact H.
Qed.





End Split.

(** ** The normaliser, step by step *)

Section Normaliser.
Variable U : UCD.

(** *** NFKD and the diacritic filter *)

Lemma elem_of_reorder_insert c l x :
  x ∈ reorder_insert U c l <-> x = c \/ x ∈ l.
Proof.
  induction l as [|d l IH]; simpl.
  - rewrite list_elem_of_singleton, elem_of_nil. tauto.
  - destruct (_ && _); rewrite !elem_of_cons; [rewrite IH|]; tauto.
Qed.

Lemma elem_of_canonical_order l x : x ∈ canonical_order U l <-> x ∈ l.
Proof.
  induction l as [|c l IH]; simpl; [reflexivity|].
  rewrite elem_of_reorder_insert, elem_of_cons, IH. reflexivity.
Qed.

(** Canonical ordering only moves marks, so it is invisible once the marks
    are dropped. *)
Lemma filter_reorder_insert c l :
  List.filter (fun char => combining U char =? 0) (reorder_insert U c l)
  = List.filter (fun char => combining U char =? 0) (c :: l).
Proof.
  induction l as [|d l IH]; [reflexivity|].
  cbn [reorder_insert].
  destruct (0 <? combining U d) eqn:Hd; [|reflexivity].
  destruct (combining U d <? combining U c) eqn:Hdc; [|reflexivity].
  cbn [andb List.filter]. rewrite IH. cbn [List.filter].
  apply N.ltb_lt in Hd, Hdc.
  assert ((combining U d =? 0) = false) as -> by (apply N.eqb_neq; lia).
  reflexivity.
Qed.

Lemma strip_diacritics_flat text :
  strip_diacritics U text
  = List.filter (fun char => combining U char =? 0)
      (List.flat_map (decomp U) text).
Proof.
  unfold strip_diacritics, nfkd.
  induction (List.flat_map (decomp U) text) as [|c l IH]; [reflexivity|].
  cbn [canonical_order]. rewrite filter_reorder_insert.
  cbn [List.filter]. rewrite IH. reflexivity.
Qed.

Lemma canonical_order_starters l :
  Forall (fun c => combining U c = 0) l -> canonical_order U l = l.
Proof.
  induction 1 as [|c l Hc _ IH]; [reflexivity|].
  cbn [canonical_order]. rewrite IH. destruct l as [|d l]; [reflexivity|].
  cbn [reorder_insert]. rewrite Hc.
  destruct (combining U d); rewrite ?andb_false_r; reflexivity.
Qed.

Lemma strip_diacritics_fixed s :
  Forall (stable U) s -> strip_diacritics U s = s.
Proof.
  intros Hs. unfold strip_diacritics, nfkd.
  assert (List.flat_map (decomp U) s = s) as ->.
  { induction Hs as [|c s [Hc _] _ IH]; [reflexivity|].
    simpl. rewrite Hc, IH. reflexivity. }
  rewrite canonical_order_starters.
  - induction Hs as [|c s [_ Hc] _ IH]; [reflexivity|].
    simpl. rewrite Hc, IH. reflexivity.
  - eapply Forall_impl; [exact Hs|]. now intros c [_ Hc].
Qed.

(** *** Letter normalisation *)

Lemma canonical_letter_steps c :
  (fun c => if c =? ALEF_HAMZA_BELOW then ALEF else c)
    ((fun c => if c =? ALEF_HAMZA_ABOVE then ALEF else c)
      ((fun c => if c =? TEH_MARBUTA then HEH else c)
        ((fun c => if c =? ALEF_MAKSURA then YEH else c) c)))
  = canonical_letter c.
Proof.
  unfold canonical_letter. cbv beta.
  destruct (N.eqb_spec c ALEF_MAKSURA) as [->|_]; [reflexivity|].
  destruct (N.eqb_spec c TEH_MARBUTA) as [->|_]; [reflexivity|].
  destruct (N.eqb_spec c ALEF_HAMZA_ABOVE) as [->|_]; [reflexivity|].
  reflexivity.
Qed.

Lemma normalize_letters_map text :
  normalize_letters text = List.map canonical_letter text.
Proof.
  unfold normalize_letters. rewrite !replace_letter, !List.map_map.
  apply List.map_ext. intros c. apply canonical_letter_steps.
Qed.

Lemma canonical_letter_cases c :
  (variant_letter c = false /\ canonical_letter c = c)
  \/ (variant_letter c = true /\ canonical_letter c ∈ [ALEF; HEH; YEH]).
Proof.
  unfold variant_letter, canonical_letter.
  destruct (N.eqb_spec c ALEF_MAKSURA) as [->|_];
    [right; split; [reflexivity | set_solver]|].
  destruct (N.eqb_spec c TEH_MARBUTA) as [->|_];
    [right; split; [reflexivity | set_solver]|].
  destruct (N.eqb_spec c ALEF_HAMZA_ABOVE) as [->|_];
    [right; split; [reflexivity | set_solver]|].
  destruct (N.eqb_spec c ALEF_HAMZA_BELOW) as [->|_];
    [right; split; [reflexivity | set_solver]|].
  left. split; reflexivity.
Qed.

Lemma canonical_letter_not_variant c :
  variant_letter (canonical_letter c) = false.
Proof.
  destruct (canonical_letter_cases c) as [[H ->]|[_ H]]; [exact H|].
  rewrite !elem_of_cons, elem_of_nil in H.
  destruct H as [->|[->|[->|[]]]]; reflexivity.
Qed.

Lemma normalize_letters_fixed s :
  Forall (fun c => variant_letter c = false) s -> normalize_letters s = s.
Proof.
  intros Hs. rewrite normalize_letters_map.
  induction Hs as [|c s Hc _ IH]; [reflexivity|].
  simpl. rewrite IH. f_equal.
  destruct (canonical_letter_cases c) as [[_ H]|[H _]]; congruence.
Qed.

End Normaliser.

Section NormaliserLaws.
Variable U : UCD.
Hypothesis HU : ucd_laws U.

Lemma strip_diacritics_stable text : Forall (stable U) (strip_diacritics U text).
Proof.
  rewrite strip_diacritics_flat. apply Forall_forall. intros d Hd.
  apply list_elem_of_In, List.filter_In in Hd as [Hd Hc].
  apply List.in_flat_map in Hd as [c [_ Hd]]. apply list_elem_of_In in Hd.
  split; [exact (decomp_full U HU c d Hd) | now apply N.eqb_eq].
Qed.

Lemma normalize_letters_stable text :
  Forall (stable U) text ->
  Forall (fun c => stable U c /\ variant_letter c = false)
    (normalize_letters text).
Proof.
  intros Ht. rewrite normalize_letters_map.
  induction Ht as [|c s Hc _ IH]; simpl; constructor; [|exact IH].
  split; [|apply canonical_letter_not_variant].
  destruct (canonical_letter_cases c) as [[_ ->]|[_ H]]; [exact Hc|].
  exact (canonical_stable U HU _ H).
Qed.

(** *** Lowercasing *)

Lemma lower_from_chunks before s :
  exists chunks,
    Forall2 (lowered U) s chunks /\ lower_from U before s = concat chunks.
Proof.
  revert before. induction s as [|c s IH]; intros before.
  - exists []. split; [constructor | reflexivity].
  - destruct (IH (c :: before)) as [chunks [Hchunks E]].
    exists (lower_at U before c s :: chunks). split.
    + constructor; [|exact Hchunks]. unfold lowered, lower_at.
      destruct (N.eqb_spec c CAPITAL_SIGMA) as [->|Hne].
      * right. split; [reflexivity|]. destruct (final_sigma _ _ _); auto.
      * left. auto.
    + simpl. rewrite E. reflexivity.
Qed.

Lemma lower_from_fixed before s :
  Forall (fun c => lower_full U c = [c]) s -> lower_from U before s = s.
Proof.
  intros Hs. revert before.
  induction Hs as [|c s Hc _ IH]; intros before; [reflexivity|].
  simpl. rewrite IH. unfold lower_at.
  destruct (N.eqb_spec c CAPITAL_SIGMA) as [->|_].
  - rewrite (lower_sigma U HU) in Hc. discriminate.
  - rewrite Hc. reflexivity.
Qed.

Lemma lowered_chunk c chunk :
  stable U c -> lowered U c chunk ->
  chunk <> [] /\
  forall d, d ∈ chunk ->
    stable U d /\ lower_full U d = [d] /\ is_Lu U d = false
    /\ (is_space U d = true -> is_space U c = true)
    /\ (variant_letter d = true -> d = c).
Proof.
  intros Hc [[_ ->]|[-> Hsig]].
  - split; [apply (lower_nonempty U HU)|].
    intros d Hd. exact (lower_closed U HU c d Hc Hd).
  - assert (Hd : exists d, chunk = [d] /\ d ∈ [SMALL_SIGMA; FINAL_SIGMA]).
    { destruct Hsig as [-> | ->]; eexists; (split; [reflexivity|]); set_solver. }
    destruct Hd as [d [-> Hd]]. split; [discriminate|].
    intros d' Hd'. apply list_elem_of_singleton in Hd' as ->.
    destruct (sigma_settled U HU d Hd) as [[Hst [Hlow [Hlu Hvar]]] Hsp].
    split; [exact Hst|]. split; [exact Hlow|]. split; [exact Hlu|].
    split; intros H; congruence.
Qed.

Lemma lowered_word w chunks :
  word U w -> Forall (stable U) w -> Forall2 (lowered U) w chunks ->
  word U (concat chunks).
Proof.
  intros [Hne Hw] Hst Hch. split.
  - destruct Hch as [|c chunk w chunks Hc _]; [congruence|].
    apply Forall_cons in Hst as [Hst _].
    destruct (lowered_chunk c chunk Hst Hc) as [Hchunk _].
    simpl. intros E. apply app_eq_nil in E as [E _]. congruence.
  - clear Hne. induction Hch as [|c chunk w chunks Hc _ IH]; [constructor|].
    apply Forall_cons in Hw as [Hcw Hw]. apply Forall_cons in Hst as [Hcs Hst].
    simpl. apply Forall_app. split; [|exact (IH Hw Hst)].
    apply Forall_forall. intros d Hd.
    destruct (lowered_chunk c chunk Hcs Hc) as [_ H].
    destruct (H d Hd) as [_ [_ [_ [Hsp _]]]].
    destruct (is_space U d); [|reflexivity].
    rewrite Hsp in Hcw by reflexivity. discriminate.
Qed.

Lemma lowered_space chunk : lowered U SPACE chunk -> chunk = [SPACE].
Proof.
  intros [[_ ->]|[H _]]; [apply (space_lower U HU) | discriminate].
Qed.

Lemma lowered_join words chunks :
  Forall (word U) words -> Forall (stable U) (join [SPACE] words) ->
  Forall2 (lowered U) (join [SPACE] words) chunks ->
  exists words',
    Forall (word U) words' /\ concat chunks = join [SPACE] words'
    /\ length words' = length words.
Proof.
  intros Hwords. revert chunks.
  induction Hwords as [|w ws Hw Hws IH]; intros chunks Hst Hch.
  - apply Forall2_nil_inv_l in Hch as ->. exists []. repeat split. constructor.
  - destruct ws as [|w' ws].
    + exists [concat chunks]. repeat split.
      constructor; [|constructor]. eapply lowered_word; eassumption.
    + rewrite join_cons in Hst, Hch by discriminate.
      apply Forall_app in Hst as [Hstw Hst].
      apply Forall_app in Hst as [_ Hst].
      apply Forall2_app_inv_l in Hch as (c1 & c2 & Hc1 & Hc2 & ->).
      apply Forall2_app_inv_l in Hc2 as (csp & c3 & Hsp & Hc3 & ->).
      apply Forall2_cons_inv_l in Hsp as (chunk & nil & Hsp & Hnil & ->).
      apply Forall2_nil_inv_l in Hnil as ->.
      apply lowered_space in Hsp as ->.
      destruct (IH c3 Hst Hc3) as (words' & Hwords' & E & Hlen).
      exists (concat c1 :: words'). split; [|split].
      * constructor; [|exact Hwords']. eapply lowered_word; eassumption.
      * rewrite join_cons by (destruct words'; discriminate).
        rewrite !concat_app, E. reflexivity.
      * simpl. rewrite Hlen. reflexivity.
Qed.

Lemma lowered_settled s chunks :
  Forall (fun c => stable U c /\ variant_letter c = false) s ->
  Forall2 (lowered U) s chunks -> Forall (settled U) (concat chunks).
Proof.
  intros Hs Hch. induction Hch as [|c chunk s chunks Hc _ IH]; [constructor|].
  apply Forall_cons in Hs as [[Hst Hvar] Hs].
  simpl. apply Forall_app. split; [|exact (IH Hs)].
  apply Forall_forall. intros d Hd.
  destruct (lowered_chunk c chunk Hst Hc) as [_ H].
  destruct (H d Hd) as (Hd1 & Hd2 & Hd3 & _ & Hd5).
  split; [exact Hd1|]. split; [exact Hd2|]. split; [exact Hd3|].
  destruct (variant_letter d) eqn:E; [|reflexivity].
  rewrite (Hd5 eq_refl) in E. congruence.
Qed.

(** *** The two facts everything else follows from *)

Lemma normalize_normal_form text :
  normal_form U (normalize_arabic_text U text).
Proof.
  unfold normalize_arabic_text, lower, split.
  set (t := normalize_letters (strip_diacritics U text)).
  assert (Ht : Forall (fun c => stable U c /\ variant_letter c = false) t)
    by apply normalize_letters_stable, strip_diacritics_stable.
  set (words := split_from (is_space U) [] t).
  assert (Hwords : Forall (word U) words)
    by apply split_from_runs, Forall_nil_2.
  assert (Hj : Forall (fun c => stable U c /\ variant_letter c = false)
                 (join [SPACE] words)).
  { apply Forall_forall. intros c Hc.
    apply elem_of_join in Hc as [Hc|[w [Hw Hc]]].
    - apply list_elem_of_singleton in Hc as ->.
      split; [apply (space_stable U HU) | reflexivity].
    - destruct (elem_of_split_from _ _ _ _ _ Hw Hc) as [H|H].
      + now apply elem_of_nil in H.
      + rewrite Forall_forall in Ht. exact (Ht c H). }
  destruct (lower_from_chunks [] (join [SPACE] words)) as [chunks [Hch ->]].
  split.
  - destruct (lowered_join words chunks Hwords) as (words' & H1 & H2 & _).
    + eapply Forall_impl; [exact Hj|]. now intros c [H _].
    + exact Hch.
    + exists words'. auto.
  - eapply lowered_settled; eassumption.
Qed.

Lemma normal_form_fixed s :
  normal_form U s -> normalize_arabic_text U s = s.
Proof.
  intros [[words [Hwords ->]] Hs]. unfold normalize_arabic_text.
  rewrite strip_diacritics_fixed
    by (eapply Forall_impl; [exact Hs|]; now intros c [H _]).
  rewrite normalize_letters_fixed
    by (eapply Forall_impl; [exact Hs|]; now intros c (_ & _ & _ & H)).
  unfold split. rewrite split_join;
    [|apply (space_is_space U HU) | exact Hwords].
  apply lower_from_fixed.
  eapply Forall_impl; [exact Hs|]. now intros c (_ & H & _).
Qed.

End NormaliserLaws.

(** ** Words that survive normalisation

    A run of solid letters found in a text is found in its normal form:
    decomposition, reordering, the filters, splitting and lowercasing all
    leave it in one piece. *)

Section Survival.
Variable U : UCD.

Lemma reorder_insert_starter c l :
  combining U c = 0 -> reorder_insert U c l = c :: l.
Proof.
  intros Hc. destruct l as [|d l]; [reflexivity|].
  cbn [reorder_insert]. rewrite Hc.
  destruct (combining U d); rewrite ?andb_false_r; reflexivity.
Qed.

(** A mark never moves past a starter. *)
Lemma reorder_insert_before c front s rest :
  combining U s = 0 ->
  exists front', reorder_insert U c (front ++ s :: rest) = front' ++ s :: rest.
Proof.
  intros Hs. induction front as [|x front [front' IH]]; cbn [reorder_insert app].
  - rewrite Hs. exists [c]. reflexivity.
  - destruct (_ && _).
    + rewrite IH. exists (x :: front'). reflexivity.
    + exists (c :: x :: front). reflexivity.
Qed.

Lemma canonical_order_run v rest :
  Forall (fun c => combining U c = 0) v ->
  canonical_order U (v ++ rest) = v ++ canonical_order U rest.
Proof.
  induction 1 as [|c v Hc _ IH]; [reflexivity|].
  cbn [canonical_order app]. rewrite IH. now apply reorder_insert_starter.
Qed.

Lemma canonical_order_keeps front c v rest :
  Forall (fun c => combining U c = 0) (c :: v) ->
  exists front',
    canonical_order U (front ++ (c :: v) ++ rest)
    = front' ++ (c :: v) ++ canonical_order U rest.
Proof.
  intros Hv. induction front as [|x front [front' IH]].
  - exists []. cbn [app]. now apply (canonical_order_run (c :: v)).
  - cbn [canonical_order app] in *. rewrite IH.
    apply Forall_cons in Hv as [Hc _].
    apply (reorder_insert_before x front' c _ Hc).
Qed.

Lemma lower_from_skip before front s :
  exists out before',
    lower_from U before (front ++ s) = out ++ lower_from U before' s.
Proof.
  revert before. induction front as [|c front IH]; intros before.
  - exists [], before. reflexivity.
  - destruct (IH (c :: before)) as (out & before' & E).
    exists (lower_at U before c (front ++ s) ++ out), before'.
    cbn [lower_from app]. rewrite E, app_assoc. reflexivity.
Qed.

Lemma lower_from_solid before v rest :
  Forall (solid U) v ->
  exists before', lower_from U before (v ++ rest) = v ++ lower_from U before' rest.
Proof.
  intros Hv. revert before.
  induction Hv as [|c v (_ & Hlow & _ & _ & Hne) _ IH]; intros before.
  - exists before. reflexivity.
  - destruct (IH (c :: before)) as [before' E]. exists before'.
    cbn [lower_from app]. rewrite E. unfold lower_at.
    destruct (N.eqb_spec c CAPITAL_SIGMA); [congruence|].
    rewrite Hlow. reflexivity.
Qed.

Section SplitKeeps.
Variable space : N -> bool.

(** The run being scanned opens the first piece. *)
Lemma split_from_opens word s :
  word <> [] ->
  exists more pieces, split_from space word s = (word ++ more) :: pieces.
Proof.
  revert word. induction s as [|c s IH]; intros word Hne; cbn [split_from].
  - exists [], []. rewrite app_nil_r. destruct word; [congruence|reflexivity].
  - destruct (space c).
    + exists [], (split_from space [] s). rewrite app_nil_r.
      destruct word; [congruence|reflexivity].
    + destruct (IH (word ++ [c])) as (more & pieces & E).
      { intros E. apply app_eq_nil in E as [_ E]. discriminate. }
      exists (c :: more), pieces. rewrite E, <- app_assoc. reflexivity.
Qed.

Lemma join_opens sep piece pieces :
  exists tail, join sep (piece :: pieces) = piece ++ tail.
Proof.
  destruct pieces as [|piece' pieces].
  - exists []. simpl. now rewrite app_nil_r.
  - exists (sep ++ join sep (piece' :: pieces)). reflexivity.
Qed.

Lemma split_join_keeps sep word front v rest :
  v <> [] -> Forall (fun c => space c = false) v ->
  substring v (join sep (split_from space word (front ++ v ++ rest))).
Proof.
  intros Hne Hv. revert word.
  induction front as [|c front IH]; intros word.
  - cbn [app]. rewrite split_from_run by exact Hv.
    destruct (split_from_opens (word ++ v) rest) as (more & pieces & ->).
    { intros E. apply app_eq_nil in E as [_ E]. congruence. }
    destruct (join_opens sep ((word ++ v) ++ more) pieces) as [tail ->].
    exists word, (more ++ tail). now rewrite <- !app_assoc.
  - cbn [app split_from]. destruct (space c); [|apply IH].
    destruct (IH []) as (before & after & E).
    destruct word as [|x word]; cbn [emit].
    + exists before, after. exact E.
    + destruct (split_from space [] (front ++ v ++ rest)) as [|piece pieces].
      * destruct before; [destruct v; [congruence|]|]; discriminate.
      * rewrite join_cons by discriminate. rewrite E.
        exists ((x :: word) ++ sep ++ before), after.
        now rewrite <- !app_assoc.
Qed.

End SplitKeeps.

Hypothesis HU : ucd_laws U.

Lemma solid_run_survives v text :
  Forall (solid U) v -> substring v text ->
  substring v (normalize_arabic_text U text).
Proof.
  intros Hv [front [rest ->]].
  assert (Hst : Forall (fun c => combining U c = 0) v)
    by (eapply Forall_impl; [exact Hv|]; now intros x ((_ & H) & _)).
  assert (Hdec : List.flat_map (decomp U) v = v).
  { clear Hst. induction Hv as [|x l ((H & _) & _) _ IH]; [reflexivity|].
    cbn [List.flat_map]. rewrite H, IH. reflexivity. }
  assert (Hfil : List.filter (fun char => combining U char =? 0) v = v).
  { clear Hdec Hv. induction Hst as [|x l H _ IH]; [reflexivity|].
    cbn [List.filter]. rewrite H, IH. reflexivity. }
  assert (Hmap : List.map canonical_letter v = v).
  { rewrite <- normalize_letters_map. apply normalize_letters_fixed.
    eapply Forall_impl; [exact Hv|]. now intros x (_ & _ & _ & H & _). }
  destruct v as [|c v];
    [exists [], (normalize_arabic_text U (front ++ rest)); reflexivity|].
  unfold normalize_arabic_text, strip_diacritics, nfkd.
  rewrite !List.flat_map_app, Hdec.
  destruct (canonical_order_keeps (List.flat_map (decomp U) front) c v
              (List.flat_map (decomp U) rest) Hst) as [front1 ->].
  rewrite !List.filter_app, Hfil, normalize_letters_map, !List.map_app, Hmap.
  set (front2 := List.map canonical_letter _).
  set (rest2 := List.map canonical_letter _).
  destruct (split_join_keeps (is_space U) [SPACE] [] front2 (c :: v) rest2)
    as (front3 & rest3 & E); [discriminate| |].
  { eapply Forall_impl; [exact Hv|]. now intros x (_ & _ & H & _). }
  unfold split, lower. rewrite E.
  destruct (lower_from_skip [] front3 ((c :: v) ++ rest3))
    as (out & before & ->).
  destruct (lower_from_solid before (c :: v) rest3 Hv) as [before' ->].
  exists out, (lower_from U before' rest3). reflexivity.
Qed.

(** The plain letters of the lexicon are solid, the two the normaliser
    rewrites apart. *)
Lemma plain_letter_solid c :
  plain_letter c = true -> variant_letter c = false -> solid U c.
Proof.
  intros Hc Hvar. destruct (plain_settled U HU c Hc) as (H1 & H2 & _ & H4).
  repeat split; try apply H1; try assumption.
  intros ->. discriminate.
Qed.

End Survival.

(** ** The normaliser seen letter by letter *)

Section LettersOf.
Variable U : UCD.

(** The first two steps of the normaliser work on each code point of the
    input by itself. *)
Lemma letters_of_flat text :
  normalize_letters (strip_diacritics U text)
  = List.flat_map (letters_of U) text.
Proof.
  rewrite strip_diacritics_flat, normalize_letters_map.
  induction text as [|c text IH]; [reflexivity|].
  cbn [List.flat_map]. rewrite List.filter_app, List.map_app, IH.
  reflexivity.
Qed.

Lemma normalize_by_letters text :
  normalize_arabic_text U text
  = lower U (join [SPACE] (split U (List.flat_map (letters_of U) text))).
Proof. unfold normalize_arabic_text. now rewrite letters_of_flat. Qed.

Lemma letters_of_stable c :
  stable U c -> letters_of U c = [canonical_letter c].
Proof.
  intros [Hd Hc]. unfold letters_of. rewrite Hd. cbn [List.filter].
  rewrite Hc. reflexivity.
Qed.

End LettersOf.

(** ** The excerpt of the database obeys the laws *)

Lemma assoc_Some {A} c (table : list (N * A)) v :
  assoc c table = Some v -> (c, v) ∈ table.
Proof.
  induction table as [|[k x] table IH]; simpl; [discriminate|].
  destruct (N.eqb_spec c k) as [->|_].
  - intros [= ->]. left.
  - intros H. right. auto.
Qed.

Lemma N_range_elem lo hi c : lo <= c <= hi -> c ∈ N_range lo hi.
Proof.
  intros H. unfold N_range. apply list_elem_of_In, List.in_map_iff.
  exists (N.to_nat c). split; [apply N2Nat.id|].
  apply List.in_seq. lia.
Qed.

Lemma forallb_range (P : N -> bool) lo hi c :
  List.forallb P (N_range lo hi) = true -> lo <= c <= hi -> P c = true.
Proof.
  intros H Hc. rewrite List.forallb_forall in H.
  apply H, list_elem_of_In, N_range_elem, Hc.
Qed.

Lemma in_ranges_forall (P : N -> bool) table c :
  List.forallb (fun r => List.forallb P (N_range (fst r) (snd r))) table = true ->
  in_ranges c table = true -> P c = true.
Proof.
  intros H Hc. unfold in_ranges in Hc.
  apply List.existsb_exists in Hc as [[lo hi] [Hr Hc]].
  rewrite List.forallb_forall in H. specialize (H _ Hr). simpl in *.
  apply andb_true_iff in Hc as [H1 H2].
  apply N.leb_le in H1, H2. eapply forallb_range; eauto.
Qed.

Lemma forallb_table {A} (P : N -> A -> bool) (table : list (N * A)) c v :
  List.forallb (fun e => P (fst e) (snd e)) table = true ->
  assoc c table = Some v -> P c v = true.
Proof.
  intros H Hc. rewrite List.forallb_forall in H.
  apply assoc_Some, list_elem_of_In in Hc. exact (H _ Hc).
Qed.

Lemma stableb_stable U c : stableb U c = true <-> stable U c.
Proof.
  unfold stableb, stable. rewrite andb_true_iff, str_eqb_eq, N.eqb_eq.
  reflexivity.
Qed.

Lemma settledb_settled U c : settledb U c = true <-> settled U c.
Proof.
  unfold settledb, settled.
  rewrite !andb_true_iff, stableb_stable, str_eqb_eq, !negb_true_iff. tauto.
Qed.

Lemma lower_closedb_spec U c d :
  lower_closedb U c d = true ->
  stable U d /\ lower_full U d = [d] /\ is_Lu U d = false
  /\ (is_space U d = true -> is_space U c = true)
  /\ (variant_letter d = true -> d = c).
Proof.
  unfold lower_closedb.
  rewrite !andb_true_iff, stableb_stable, str_eqb_eq, negb_true_iff.
  intros ((((H1 & H2) & H3) & H4) & H5). repeat split; try apply H1; auto.
  - intros E. rewrite E in H4. exact H4.
  - intros E. rewrite E in H5. now apply N.eqb_eq.
Qed.

Lemma variant_letter_cases c :
  variant_letter c = true ->
  c ∈ [ALEF_MAKSURA; TEH_MARBUTA; ALEF_HAMZA_ABOVE; ALEF_HAMZA_BELOW].
Proof.
  unfold variant_letter.
  rewrite !orb_true_iff, !N.eqb_eq, !elem_of_cons. tauto.
Qed.

Lemma plain_letter_range c : plain_letter c = true -> 0x30 <= c <= 0x64A.
Proof.
  unfold plain_letter.
  rewrite !orb_true_iff, !andb_true_iff, !N.leb_le. lia.
Qed.

Lemma ucd_excerpt_laws : ucd_laws ucd_excerpt.
Proof.
  constructor.
  - (* decomp_full *)
    intros c d. change (decomp ucd_excerpt c)
      with (entry_or [c] (assoc c decomp_table)).
    destruct (assoc c decomp_table) as [l|] eqn:E; cbn [entry_or].
    + intros Hd.
      assert (H : List.forallb
                (fun d => str_eqb (decomp ucd_excerpt d) [d]) l = true).
      { revert E. apply (forallb_table (fun _ l =>
          List.forallb (fun d => str_eqb (decomp ucd_excerpt d) [d]) l)).
        vm_compute. reflexivity. }
      rewrite List.forallb_forall in H.
      apply str_eqb_eq, H, list_elem_of_In, Hd.
    + intros Hd. apply list_elem_of_singleton in Hd as ->.
      change (decomp ucd_excerpt c) with (entry_or [c] (assoc c decomp_table)).
      rewrite E. reflexivity.
  - reflexivity.
  - split; reflexivity.
  - reflexivity.
  - intros c Hc. apply stableb_stable.
    rewrite !elem_of_cons, elem_of_nil in Hc.
    destruct Hc as [->|[->|[->|[]]]]; reflexivity.
  - (* lower_nonempty *)
    intros c. change (lower_full ucd_excerpt c)
      with (entry_or [c] (assoc c lower_table)).
    destruct (assoc c lower_table) as [l|] eqn:E; cbn [entry_or].
    + assert (H : negb (str_eqb l []) = true).
      { revert E. apply (forallb_table (fun _ l => negb (str_eqb l []))).
        vm_compute. reflexivity. }
      intros ->. discriminate.
    + discriminate.
  - reflexivity.
  - intros d Hd. rewrite !elem_of_cons, elem_of_nil in Hd.
    destruct Hd as [->|[->|[]]]; (split; [apply settledb_settled|]);
      reflexivity.
  - (* lower_closed *)
    intros c d Hc. apply stableb_stable in Hc.
    assert (El : lower_full ucd_excerpt c
                 = entry_or [c] (assoc c lower_table)) by reflexivity.
    destruct (assoc c lower_table) as [l|] eqn:E; cbn [entry_or] in El;
      rewrite El; intros Hd.
    + apply lower_closedb_spec.
      assert (H : implb (stableb ucd_excerpt c)
                    (List.forallb (lower_closedb ucd_excerpt c) l) = true).
      { revert E. apply (forallb_table (fun c l =>
          implb (stableb ucd_excerpt c)
            (List.forallb (lower_closedb ucd_excerpt c) l))).
        vm_compute. reflexivity. }
      rewrite Hc in H. cbn [implb] in H. rewrite List.forallb_forall in H.
      apply H, list_elem_of_In, Hd.
    + apply list_elem_of_singleton in Hd as ->.
      split; [now apply stableb_stable|]. split; [exact El|].
      split; [|now split].
      destruct (is_Lu ucd_excerpt c) eqn:Hlu; [|reflexivity].
      enough (H : negb (stableb ucd_excerpt c)
                  || match assoc c lower_table with
                     | Some _ => true
                     | None => false
                     end = true).
      { rewrite Hc, E in H. discriminate. }
      revert Hlu. apply (in_ranges_forall (fun c =>
        negb (stableb ucd_excerpt c)
        || match assoc c lower_table with
           | Some _ => true
           | None => false
           end)).
      vm_compute. reflexivity.
  - (* variant_caseless *)
    intros c Hc. apply variant_letter_cases in Hc.
    rewrite !elem_of_cons, elem_of_nil in Hc.
    destruct Hc as [->|[->|[->|[->|[]]]]]; reflexivity.
  - (* plain_settled *)
    intros c Hc.
    enough (H : implb (plain_letter c)
                  (stableb ucd_excerpt c
                   && str_eqb (lower_full ucd_excerpt c) [c]
                   && negb (is_Lu ucd_excerpt c)
                   && negb (is_space ucd_excerpt c)) = true).
    { rewrite Hc in H. cbn [implb] in H.
      rewrite !andb_true_iff, stableb_stable, str_eqb_eq, !negb_true_iff in H.
      tauto. }
    apply (forallb_range (fun c =>
      implb (plain_letter c)
        (stableb ucd_excerpt c
         && str_eqb (lower_full ucd_excerpt c) [c]
         && negb (is_Lu ucd_excerpt c)
         && negb (is_space ucd_excerpt c))) 0x30 0x64A);
      [|now apply plain_letter_range].
    vm_compute. reflexivity.
Qed.

(** ** The lexicon *)

Lemma str_mem_spec (x : list N) (l : list (list N)) :
  List.existsb (str_eqb x) l = true <-> x ∈ l.
Proof.
  rewrite List.existsb_exists. split.
  - intros [y [Hy E]]. apply str_eqb_eq in E as ->. now apply list_elem_of_In.
  - intros H. exists x. split; [now apply list_elem_of_In | now apply str_eqb_eq].
Qed.

(** The loop of [_compile_bad_words] appends five entries per word. *)
Lemma fold_extend_with bad_words extended_words :
  List.fold_left extend_with bad_words extended_words
  = extended_words
    ++ List.flat_map
         (fun word => [word; replace SPACE [] word] ++ variations word)
         bad_words.
Proof.
  revert extended_words.
  induction bad_words as [|word bad_words IH]; intros extended_words; simpl.
  - now rewrite app_nil_r.
  - rewrite IH. unfold extend_with. rewrite <- !app_assoc. reflexivity.
Qed.

Lemma elem_of_compile_bad_words bad_words x :
  x ∈ compile_bad_words_from bad_words <->
  exists word, word ∈ bad_words /\
    (x = word \/ x = replace SPACE [] word
     \/ x = replace ALEF [ALEF_HAMZA_ABOVE] word
     \/ x = replace ALEF [ALEF_HAMZA_BELOW] word
     \/ x = replace HEH [TEH_MARBUTA] word).
Proof.
  unfold compile_bad_words_from.
  rewrite elem_of_list_to_set, fold_extend_with, app_nil_l.
  rewrite list_elem_of_In, List.in_flat_map. unfold variations.
  split; intros [word [Hw Hx]]; exists word.
  - split; [now apply list_elem_of_In|]. simpl in Hx. intuition auto.
  - split; [now apply list_elem_of_In|]. simpl. intuition auto.
Qed.

Lemma elem_of_plain_bad_words bad_words x :
  x ∈ plain_bad_words_from bad_words <->
  exists word, word ∈ bad_words /\ (x = word \/ x = replace SPACE [] word).
Proof.
  unfold plain_bad_words_from.
  rewrite elem_of_list_to_set, list_elem_of_In, List.in_flat_map.
  split; intros [word [Hw Hx]]; exists word.
  - split; [now apply list_elem_of_In|]. simpl in Hx. intuition auto.
  - split; [now apply list_elem_of_In|]. simpl. intuition auto.
Qed.

(** A substitution either leaves the word as it is or puts the new letter
    in it. *)
Lemma replace_letter_cases old new word :
  replace old [new] word = word \/ new ∈ replace old [new] word.
Proof.
  destruct (decide (old ∈ word)) as [H|H].
  - right. apply elem_of_replace. left. split; [left | exact H].
  - left. now apply replace_absent.
Qed.

(** Every entry outside the plain lexicon contains one of the letters the
    normaliser rewrites. *)
Lemma substituted_entry bad_words x :
  x ∈ compile_bad_words_from bad_words ->
  x ∈ plain_bad_words_from bad_words
  \/ exists c, c ∈ x /\ variant_letter c = true.
Proof.
  rewrite elem_of_compile_bad_words, elem_of_plain_bad_words.
  intros [word [Hw Hx]].
  assert (Hplain : forall new, variant_letter new = true ->
            forall old, x = replace old [new] word ->
            (exists word, word ∈ bad_words /\
               (x = word \/ x = replace SPACE [] word))
            \/ exists c, c ∈ x /\ variant_letter c = true).
  { intros new Hnew old ->.
    destruct (replace_letter_cases old new word) as [->|H]; eauto. }
  destruct Hx as [->|[->|[H|[H|H]]]].
  - left. exists word. auto.
  - left. exists word. auto.
  - exact (Hplain ALEF_HAMZA_ABOVE eq_refl _ H).
  - exact (Hplain ALEF_HAMZA_BELOW eq_refl _ H).
  - exact (Hplain TEH_MARBUTA eq_refl _ H).
Qed.

Lemma plain_subset bad_words x :
  x ∈ plain_bad_words_from bad_words -> x ∈ compile_bad_words_from bad_words.
Proof.
  rewrite elem_of_compile_bad_words, elem_of_plain_bad_words.
  intros [word [Hw Hx]]. exists word. intuition auto.
Qed.

Section Matcher.
Variable U : UCD.

Lemma lexicon_match_spec lexicon normalized_text :
  lexicon_match U lexicon normalized_text = true <->
  exists bad_word,
    bad_word ∈ lexicon /\ substring (lower U bad_word) normalized_text.
Proof.
  unfold lexicon_match. rewrite List.existsb_exists. split.
  - intros [bad_word [Hin H]]. exists bad_word. split.
    + now apply elem_of_elements, list_elem_of_In.
    + now apply str_in_spec.
  - intros [bad_word [Hin H]]. exists bad_word. split.
    + now apply list_elem_of_In, elem_of_elements.
    + now apply str_in_spec.
Qed.

(** [lower] keeps a caseless letter where it is. *)
Lemma lower_from_keeps before s c :
  c ∈ s -> c <> CAPITAL_SIGMA -> lower_full U c = [c] ->
  c ∈ lower_from U before s.
Proof.
  intros Hc Hne Hlow. revert before.
  induction s as [|x s IH]; intros before; [now apply elem_of_nil in Hc|].
  simpl. rewrite elem_of_app. apply elem_of_cons in Hc as [<-|Hc].
  - left. unfold lower_at.
    destruct (N.eqb_spec c CAPITAL_SIGMA); [congruence|].
    rewrite Hlow. left.
  - right. auto.
Qed.

End Matcher.

(** ** The bad-word check *)

(** Unfolds the monadic plumbing of a run. *)
Ltac run_unfold :=
  unfold moderate_message, delete_and_warn, contains_bad_words, gemini_check,
    model_generate_content, message_delete, bot_send_message,
    attribute_error, try_except, bind, ret, raise, lift, print, sys_exit in *.

(** Splits a run along every branch the code can take. *)
Ltac run_cases :=
  repeat (match goal with
          | |- context [match ?x with _ => _ end] =>
            lazymatch x with
            | context [match _ with _ => _ end] => fail
            | _ => destruct x eqn:?
            end
          end;
          cbn [fst snd bad_words stdout prompts calls is_Exception] in *).

Section Check.
Variable U : UCD.
Variable S : services.

(** The check never touches the lexicon nor the platform. *)
Lemma contains_bad_words_frame text w :
  bad_words (snd (contains_bad_words U S text w)) = bad_words w
  /\ calls (snd (contains_bad_words U S text w)) = calls w.
Proof. run_unfold. run_cases; split; reflexivity. Qed.

(** The handler never touches the lexicon. *)
Lemma moderate_message_lexicon update w :
  bad_words (snd (moderate_message U S update w)) = bad_words w.
Proof. run_unfold. run_cases; reflexivity. Qed.

(** A prompt leaves the process only after the lexicon found nothing. *)
Lemma model_called_only_after_miss text w :
  prompts (snd (contains_bad_words U S text w)) <> prompts w ->
  lexicon_match U (bad_words w) (normalize_arabic_text U text) = false.
Proof.
  unfold contains_bad_words.
  destruct (lexicon_match _ _ _); [|reflexivity].
  simpl. congruence.
Qed.

(** Only instances of [Exception] are caught: anything else the remote
    call raises leaves [contains_bad_words] as it came. *)
Lemma remote_interrupt_propagates text w e :
  lexicon_match U (bad_words w) (normalize_arabic_text U text) = false ->
  generate_content S w (gemini_prompt text) = Raises e ->
  is_Exception e = false ->
  fst (contains_bad_words U S text w) = Raises e.
Proof.
  intros Hmiss Hfail He. unfold contains_bad_words. rewrite Hmiss.
  run_unfold. rewrite Hfail, He. reflexivity.
Qed.

(** A lexicon entry made of plain letters is found in every text that
    contains it, whatever surrounds it there. *)
Lemma known_bad_word_flagged (HU : ucd_laws U) bad_word text w :
  bad_word ∈ bad_words w ->
  Forall (fun c => plain_letter c = true /\ variant_letter c = false)
    bad_word ->
  substring bad_word text ->
  contains_bad_words U S text w = (Returns true, w).
Proof.
  intros Hin Hplain Hsub.
  assert (Hsolid : Forall (solid U) bad_word).
  { eapply Forall_impl; [exact Hplain|].
    intros c [H1 H2]. now apply plain_letter_solid. }
  assert (Hlow : lower U bad_word = bad_word).
  { apply lower_from_fixed; [exact HU|].
    eapply Forall_impl; [exact Hsolid|]. now intros c (_ & H & _). }
  assert (H : lexicon_match U (bad_words w) (normalize_arabic_text U text)
              = true).
  { apply lexicon_match_spec. exists bad_word. split; [exact Hin|].
    rewrite Hlow. now apply solid_run_survives. }
  unfold contains_bad_words. rewrite H. reflexivity.
Qed.

End Check.

(** The example of the specification: a text that contains the seed word
    below is flagged by the lexicon alone. *)
Lemma text_with_kalb_flagged (U : UCD) (HU : ucd_laws U) (S : services)
    (text : list N) :
  substring (pystr "كلب") text ->
  contains_bad_words U S text startup = (Returns true, startup).
Proof.
  apply known_bad_word_flagged; [exact HU| |].
  - apply elem_of_compile_bad_words. exists (pystr "كلب").
    split; [|left; reflexivity].
    apply str_mem_spec. vm_compute. reflexivity.
  - repeat constructor.
Qed.

(** * The claims *)

(** C1. The lexicon matcher returns true exactly when some entry of the
    lexicon, lowercased, is a contiguous substring of the normalised text;
    so it finds no match exactly when no entry occurs in it.  The matcher
    is the first phase of [contains_bad_words], which answers [True] on a
    match and goes on to the remote check otherwise. *)
Theorem lexicon_matcher_iff_substring (U : UCD) (S : services)
    (text : list N) (w : world) :
  let normalized_text := normalize_arabic_text U text in
  (lexicon_match U (bad_words w) normalized_text = true <->
     exists bad_word, bad_word ∈ bad_words w
       /\ substring (lower U bad_word) normalized_text)
  /\ (lexicon_match U (bad_words w) normalized_text = false <->
        forall bad_word, bad_word ∈ bad_words w ->
          ~ substring (lower U bad_word) normalized_text)
  /\ contains_bad_words U S text w
     = if lexicon_match U (bad_words w) normalized_text
       then (Returns true, w)
       else gemini_check U S text w.
Proof.
  intros normalized_text. split; [apply lexicon_match_spec|]. split.
  - rewrite <- not_true_iff_false, lexicon_match_spec. split.
    + intros H bad_word Hin Hsub. apply H. eauto.
    + intros H [bad_word [Hin Hsub]]. exact (H bad_word Hin Hsub).
  - reflexivity.
Qed.

(** C2. When the remote call is made and fails with an [Exception],
    whether [generate_content] raises or reading the reply's text does,
    [contains_bad_words] returns [False], prints
    "Gemini moderation check failed: ..." and raises nothing. *)
Theorem remote_failure_fails_open (U : UCD) (S : services)
    (text : list N) (w : world) (e : exn) :
  lexicon_match U (bad_words w) (normalize_arabic_text U text) = false ->
  generate_content S w (gemini_prompt text) = Raises e
  \/ (exists reply, generate_content S w (gemini_prompt text) = Returns reply
        /\ response_text reply = Raises e) ->
  is_Exception e = true ->
  contains_bad_words U S text w
  = (Returns false,
     {| bad_words := bad_words w;
        stdout := stdout w
                  ++ [pystr "Gemini moderation check failed: " ++ exn_str e];
        prompts := prompts w ++ [gemini_prompt text];
        calls := calls w |}).
Proof.
  intros Hmiss Hfail He. unfold contains_bad_words. rewrite Hmiss.
  run_unfold. destruct Hfail as [->|[reply [-> Hreply]]].
  - rewrite He. reflexivity.
  - rewrite Hreply, He. reflexivity.
Qed.

Lemma remote_failure_fails_open_witness :
  lexicon_match ucd_excerpt (bad_words startup)
    (normalize_arabic_text ucd_excerpt (pystr "hello")) = false
  /\ contains_bad_words ucd_excerpt services_down (pystr "hello") startup
     = (Returns false,
        {| bad_words := bad_words startup;
           stdout := stdout startup
                     ++ [pystr "Gemini moderation check failed: "
                         ++ exn_str (Exception (pystr "503 Service Unavailable"))];
           prompts := prompts startup ++ [gemini_prompt (pystr "hello")];
           calls := calls startup |}).
Proof.
  assert (Hmiss : lexicon_match ucd_excerpt (bad_words startup)
                    (normalize_arabic_text ucd_excerpt (pystr "hello")) = false)
    by (vm_compute; reflexivity).
  split; [exact Hmiss|].
  exact (remote_failure_fails_open ucd_excerpt services_down (pystr "hello")
           startup (Exception (pystr "503 Service Unavailable"))
           Hmiss (or_introl eq_refl) eq_refl).
Defined.

(** C6. When the normalised text contains a lexicon entry,
    [contains_bad_words] returns [True] and leaves the world as it was: no
    prompt is sent to the generative model. *)
Theorem lexicon_hit_skips_model (U : UCD) (S : services)
    (text : list N) (w : world) (bad_word : list N) :
  bad_word ∈ bad_words w ->
  substring (lower U bad_word) (normalize_arabic_text U text) ->
  contains_bad_words U S text w = (Returns true, w)
  /\ prompts (snd (contains_bad_words U S text w)) = prompts w.
Proof.
  intros Hin Hsub.
  assert (H : lexicon_match U (bad_words w) (normalize_arabic_text U text)
              = true) by (apply lexicon_match_spec; eauto).
  unfold contains_bad_words. rewrite H. split; reflexivity.
Qed.

Lemma lexicon_hit_skips_model_witness :
  contains_bad_words ucd_excerpt services_down (pystr "يا كَلْب!") startup
  = (Returns true, startup)
  /\ prompts (snd (contains_bad_words ucd_excerpt services_down
                     (pystr "يا كَلْب!") startup)) = prompts startup.
Proof.
  apply (lexicon_hit_skips_model ucd_excerpt services_down
           (pystr "يا كَلْب!") startup (pystr "كلب")).
  - apply elem_of_compile_bad_words. exists (pystr "كلب").
    split; [|left; reflexivity].
    apply str_mem_spec. vm_compute. reflexivity.
  - exists (pystr "يا "), (pystr "!"). vm_compute. reflexivity.
Defined.

(** C3. Normalisation is idempotent: normalising a normalised string gives
    the same string. *)
Theorem normalize_arabic_text_idempotent (U : UCD) (HU : ucd_laws U)
    (s : list N) :
  normalize_arabic_text U (normalize_arabic_text U s)
  = normalize_arabic_text U s.
Proof. apply normal_form_fixed, normalize_normal_form; exact HU. Qed.

Lemma normalize_arabic_text_idempotent_witness :
  normalize_arabic_text ucd_excerpt
    (normalize_arabic_text ucd_excerpt (pystr "  Ýa  كَلْبٌ أإةى  ﻛﻠﺐ ΑΣ Σ"))
  = normalize_arabic_text ucd_excerpt (pystr "  Ýa  كَلْبٌ أإةى  ﻛﻠﺐ ΑΣ Σ").
Proof.
  exact (normalize_arabic_text_idempotent ucd_excerpt ucd_excerpt_laws
           (pystr "  Ýa  كَلْبٌ أإةى  ﻛﻠﺐ ΑΣ Σ")).
Defined.

Example normalize_sample :
  normalize_arabic_text ucd_excerpt (pystr "  Ýa  كَلْبٌ أإةى  ﻛﻠﺐ ΑΣ Σ")
  = pystr "ya كلب ااهي كلب ας σ".
Proof. vm_compute. reflexivity. Qed.





(** The four letters in a word, on the excerpt. *)
Example normalize_variant_letters :
  letters_of ucd_excerpt ALEF_HAMZA_ABOVE = [ALEF]
  /\ letters_of ucd_excerpt ALEF_HAMZA_BELOW = [ALEF]
  /\ normalize_arabic_text ucd_excerpt (pystr "مأجورة إلى")
     = pystr "ماجوره الي".
Proof. repeat split; vm_compute; reflexivity. Qed.

(** C10. The letter substitutions added to the lexicon are dead entries:
    on every normalised text the matcher gives the same verdict with the
    full lexicon as with the seed words and their space-free forms alone,
    because an entry that a substitution changed contains a letter the
    normaliser's output never has. *)
Theorem substituted_entries_dead (U : UCD) (HU : ucd_laws U)
    (text : list N) :
  lexicon_match U _compile_bad_words (normalize_arabic_text U text)
  = lexicon_match U (plain_bad_words_from seed_bad_words)
      (normalize_arabic_text U text)
  /\ forall bad_word c,
       bad_word ∈ _compile_bad_words ->
       c ∈ bad_word -> variant_letter c = true ->
       ~ substring (lower U bad_word) (normalize_arabic_text U text).
Proof.
  assert (Hdead : forall bad_word c,
            c ∈ bad_word -> variant_letter c = true ->
            ~ substring (lower U bad_word) (normalize_arabic_text U text)).
  { intros bad_word c Hc Hvar Hsub.
    assert (Hin : c ∈ normalize_arabic_text U text).
    { eapply substring_elem; [exact Hsub|].
      apply lower_from_keeps; [exact Hc| |exact (variant_caseless U HU c Hvar)].
      intros ->. discriminate. }
    destruct (normalize_normal_form U HU text) as [_ Hs].
    rewrite Forall_forall in Hs. destruct (Hs c Hin) as (_ & _ & _ & H).
    congruence. }
  split; [|intros bad_word c _; apply Hdead].
  apply eq_true_iff_eq. rewrite !lexicon_match_spec.
  split; intros [bad_word [Hin Hsub]].
  - destruct (substituted_entry _ _ Hin) as [Hplain|[c [Hc Hvar]]].
    + eauto.
    + destruct (Hdead bad_word c Hc Hvar Hsub).
  - exists bad_word. split; [now apply plain_subset | exact Hsub].
Qed.

Lemma substituted_entries_dead_witness :
  lexicon_match ucd_excerpt _compile_bad_words
    (normalize_arabic_text ucd_excerpt (pystr "يا إبن القحبة"))
  = lexicon_match ucd_excerpt (plain_bad_words_from seed_bad_words)
      (normalize_arabic_text ucd_excerpt (pystr "يا إبن القحبة"))
  /\ forall bad_word c,
       bad_word ∈ _compile_bad_words ->
       c ∈ bad_word -> variant_letter c = true ->
       ~ substring (lower ucd_excerpt bad_word)
           (normalize_arabic_text ucd_excerpt (pystr "يا إبن القحبة")).
Proof.
  exact (substituted_entries_dead ucd_excerpt ucd_excerpt_laws
           (pystr "يا إبن القحبة")).
Defined.

(** C4.  The code breaks the claim.  The lexicon keeps its seed words as
    they are written, while the matcher compares them with normalised
    text: the seed word below ends in teh marbuta, which the normaliser
    turns into heh, so the entry is no normal form and a message made of
    that very word goes unnoticed by the lexicon. *)
Theorem unnormalized_seed_missed :
  pystr "زنية" ∈ seed_bad_words
  /\ pystr "زنية" ∈ _compile_bad_words
  /\ normalize_arabic_text ucd_excerpt (pystr "زنية") = pystr "زنيه"
  /\ pystr "زنيه" <> pystr "زنية"
  /\ lexicon_match ucd_excerpt _compile_bad_words
       (normalize_arabic_text ucd_excerpt (pystr "زنية")) = false.
Proof.
  split; [apply str_mem_spec; vm_compute; reflexivity|].
  split.
  { apply elem_of_compile_bad_words. exists (pystr "زنية").
    split; [|left; reflexivity].
    apply str_mem_spec. vm_compute. reflexivity. }
  split; [vm_compute; reflexivity|].
  split; [vm_compute; discriminate | vm_compute; reflexivity].
Qed.

(** Another seed word the matcher cannot see. *)
Example seed_word_missed :
  lexicon_match ucd_excerpt _compile_bad_words
    (normalize_arabic_text ucd_excerpt (pystr "قحبة")) = false.
Proof. vm_compute. reflexivity. Qed.

Lemma plain_form_normal (U : UCD) (HU : ucd_laws U) (w : list N) :
  plain_form w = true -> Forall (fun c => variant_letter c = false) w ->
  normal_form U w.
Proof.
  unfold plain_form. rewrite andb_true_iff, str_eqb_eq.
  intros [E Hplain] Hvar.
  assert (Hruns := split_from_runs (N.eqb SPACE) [] w (Forall_nil_2 _)).
  fold (plain_words w) in Hruns.
  assert (Hletters : forall word c,
            word ∈ plain_words w -> c ∈ word -> plain_letter c = true).
  { intros word c Hword Hc. rewrite List.forallb_forall in Hplain.
    apply list_elem_of_In, Hplain in Hword.
    rewrite List.forallb_forall in Hword. now apply Hword, list_elem_of_In. }
  split.
  - exists (plain_words w). split; [|now rewrite E].
    apply Forall_forall. intros word Hword.
    rewrite Forall_forall in Hruns. destruct (Hruns word Hword) as [Hne _].
    split; [exact Hne|]. apply Forall_forall. intros c Hc.
    now destruct (plain_settled U HU c (Hletters word c Hword Hc))
      as (_ & _ & _ & H).
  - apply Forall_forall. intros c Hc.
    rewrite Forall_forall in Hvar. specialize (Hvar c Hc).
    rewrite <- E in Hc. apply elem_of_join in Hc as [Hc|[word [Hword Hc]]].
    + apply list_elem_of_singleton in Hc as ->.
      pose proof (space_stable U HU) as Hst.
      assert (Hsp : SPACE ∈ lower_full U SPACE)
        by (rewrite (space_lower U HU); left).
      destruct (lower_closed U HU SPACE SPACE Hst Hsp) as (_ & H1 & H2 & _).
      repeat split; try apply Hst; assumption.
    + destruct (plain_settled U HU c (Hletters word c Hword Hc))
        as (H1 & H2 & H3 & _).
      repeat split; try apply H1; assumption.
Qed.

Lemma lexicon_entries_plain (w : list N) :
  w ∈ _compile_bad_words ->
  List.existsb variant_letter w || plain_form w = true.
Proof.
  intros Hw. apply elem_of_elements, list_elem_of_In in Hw.
  assert (H : List.forallb
                (fun w => List.existsb variant_letter w || plain_form w)
                (elements _compile_bad_words) = true)
    by (vm_compute; reflexivity).
  rewrite List.forallb_forall in H. exact (H w Hw).
Qed.

(** Which entries the defect concerns: an entry is a normal form exactly
    when it has none of the letters alef maksura, teh marbuta, alef with
    hamza above or below.  The lexicon itself is never changed after
    construction, neither by [contains_bad_words] nor by
    [moderate_message]. *)
Lemma lexicon_entries_normalized_unless_variant (U : UCD)
    (HU : ucd_laws U) :
  (forall bad_word, bad_word ∈ _compile_bad_words ->
     (normalize_arabic_text U bad_word = bad_word <->
      Forall (fun c => variant_letter c = false) bad_word))
  /\ (forall S text w,
        bad_words (snd (contains_bad_words U S text w)) = bad_words w)
  /\ (forall S update w,
        bad_words (snd (moderate_message U S update w)) = bad_words w).
Proof.
  split; [|split].
  - intros bad_word Hin. split.
    + intros E. destruct (normalize_normal_form U HU bad_word) as [_ Hs].
      rewrite E in Hs. eapply Forall_impl; [exact Hs|].
      now intros c (_ & _ & _ & H).
    + intros Hvar. apply normal_form_fixed; [exact HU|].
      apply plain_form_normal; [exact HU| |exact Hvar].
      pose proof (lexicon_entries_plain bad_word Hin) as H.
      apply orb_true_iff in H as [H|H]; [|exact H].
      apply List.existsb_exists in H as [c [Hc H]].
      rewrite Forall_forall in Hvar.
      rewrite (Hvar c) in H by now apply list_elem_of_In. discriminate.
  - intros S text w. apply contains_bad_words_frame.
  - intros S update w. apply moderate_message_lexicon.
Qed.

(** C5. For every seed word the lexicon holds the word, the word with its
    spaces removed, and its three letter substitutions: every alef
    replaced by alef with hamza above, every alef by alef with hamza
    below, every heh by teh marbuta. *)
Theorem seed_variants_in_lexicon (word : list N) :
  word ∈ seed_bad_words ->
  word ∈ _compile_bad_words
  /\ replace SPACE [] word ∈ _compile_bad_words
  /\ replace ALEF [ALEF_HAMZA_ABOVE] word ∈ _compile_bad_words
  /\ replace ALEF [ALEF_HAMZA_BELOW] word ∈ _compile_bad_words
  /\ replace HEH [TEH_MARBUTA] word ∈ _compile_bad_words.
Proof.
  intros Hword. unfold _compile_bad_words.
  rewrite !elem_of_compile_bad_words.
  repeat split; exists word; (split; [exact Hword|]); auto 6.
Qed.

Lemma seed_variants_in_lexicon_witness :
  pystr "ع ا ه ر" ∈ seed_bad_words
  /\ pystr "ع ا ه ر" ∈ _compile_bad_words
  /\ replace SPACE [] (pystr "ع ا ه ر") ∈ _compile_bad_words
  /\ replace ALEF [ALEF_HAMZA_ABOVE] (pystr "ع ا ه ر") ∈ _compile_bad_words
  /\ replace ALEF [ALEF_HAMZA_BELOW] (pystr "ع ا ه ر") ∈ _compile_bad_words
  /\ replace HEH [TEH_MARBUTA] (pystr "ع ا ه ر") ∈ _compile_bad_words.
Proof.
  assert (Hseed : pystr "ع ا ه ر" ∈ seed_bad_words)
    by (apply str_mem_spec; vm_compute; reflexivity).
  split; [exact Hseed|].
  exact (seed_variants_in_lexicon (pystr "ع ا ه ر") Hseed).
Defined.

Example seed_variants_sample :
  [ replace SPACE [] (pystr "ع ا ه ر");
    replace ALEF [ALEF_HAMZA_ABOVE] (pystr "ع ا ه ر");
    replace ALEF [ALEF_HAMZA_BELOW] (pystr "ع ا ه ر");
    replace HEH [TEH_MARBUTA] (pystr "ع ا ه ر") ]
  = [ pystr "عاهر"; pystr "ع أ ه ر"; pystr "ع إ ه ر"; pystr "ع ا ة ر" ].
Proof. vm_compute. reflexivity. Qed.

(** C7. When [contains_bad_words] returns [False] for the text of an
    incoming message, [moderate_message] ends in the state the check left:
    it deletes nothing, sends nothing, and the record of platform calls is
    what it was before the message came. *)
Theorem clean_message_left_alone (U : UCD) (S : services)
    (update : update) (message : message) (text : list N) (w w' : world) :
  update_message update = Some message ->
  message_text message = Some text ->
  text <> [] ->
  contains_bad_words U S text w = (Returns false, w') ->
  moderate_message U S update w = (Returns tt, w')
  /\ calls w' = calls w.
Proof.
  intros Hmessage Htext Hne Hclean. split.
  - unfold moderate_message. rewrite Hmessage, Htext.
    destruct text as [|c text]; [congruence|].
    unfold try_except, bind. rewrite Hclean. reflexivity.
  - destruct (contains_bad_words_frame U S text w) as [_ H].
    rewrite Hclean in H. exact H.
Qed.

Lemma clean_message_left_alone_witness :
  let update := {| update_message :=
                     Some {| message_id := 7;
                             message_text := Some (pystr "hello") |};
                   effective_chat := Some {| chat_id := (-100)%Z |};
                   effective_user := Some {| mention_html := pystr "Sam" |} |} in
  let S := services_answering (pystr "FALSE") in
  let w' := snd (contains_bad_words ucd_excerpt S (pystr "hello") startup) in
  contains_bad_words ucd_excerpt S (pystr "hello") startup = (Returns false, w')
  /\ moderate_message ucd_excerpt S update startup = (Returns tt, w')
  /\ calls w' = calls startup.
Proof.
  intros update S w'.
  assert (Hne : pystr "hello" <> []) by (vm_compute; discriminate).
  assert (Hclean : contains_bad_words ucd_excerpt S (pystr "hello") startup
                   = (Returns false, w')) by (vm_compute; reflexivity).
  split; [exact Hclean|].
  exact (clean_message_left_alone ucd_excerpt S update
           {| message_id := 7; message_text := Some (pystr "hello") |}
           (pystr "hello") startup w' eq_refl eq_refl Hne Hclean).
Defined.

(** A flagged message, for contrast: it is deleted and a warning is sent. *)
Example flagged_message_deleted :
  calls (snd (moderate_message ucd_excerpt services_down
                {| update_message :=
                     Some {| message_id := 7;
                             message_text := Some (pystr "يا كلب") |};
                   effective_chat := Some {| chat_id := (-100)%Z |};
                   effective_user := Some {| mention_html := pystr "Sam" |} |}
                startup))
  = [ DeleteMessage 7;
      SendMessage (-100)%Z
        (pystr "⚠️ تم حذف رسالة من Sam بسبب محتوى غير لائق.")
        (pystr "HTML") ].
Proof. vm_compute. reflexivity. Qed.

(** C9 fails as stated: nothing checks that a credential is non-empty, and
    two empty credentials are returned like any others. *)
Lemma get_api_keys_accepts_empty :
  get_api_keys_with [] [] startup = (Returns ([], []), startup).
Proof. vm_compute. reflexivity. Qed.

Example get_api_keys_placeholder_exits :
  fst (get_api_keys_with (pystr "YOUR_TELEGRAM_BOT_TOKEN") (pystr "secret")
         startup)
  = Raises (SystemExit 1).
Proof. vm_compute. reflexivity. Qed.

(** C9, amended.  [get_api_keys] prints its four-line error message and
    exits with status 1 when either credential is still its placeholder;
    otherwise, an empty credential included, it returns the pair and
    prints nothing.  With the constants of the source it returns them. *)
Theorem get_api_keys_placeholder_check
    (TELEGRAM_BOT_TOKEN GOOGLE_GEMINI_API_KEY : list N) (w : world) :
  (TELEGRAM_BOT_TOKEN = pystr "YOUR_TELEGRAM_BOT_TOKEN"
   \/ GOOGLE_GEMINI_API_KEY = pystr "YOUR_GOOGLE_GEMINI_API_KEY" ->
   get_api_keys_with TELEGRAM_BOT_TOKEN GOOGLE_GEMINI_API_KEY w
   = (Raises (SystemExit 1),
      {| bad_words := bad_words w;
         stdout := stdout w ++ [
           pystr "❌ خطأ: يجب عليك استبدال مفاتيح API!";
           pystr "الخطوات للحصول على المفاتيح:";
           pystr "1. رمز بوت تليجرام: تحدث مع @BotFather على تليجرام";
           pystr "2. مفتاح Google Gemini API: زر https://makersuite.google.com/app/apikey" ];
         prompts := prompts w;
         calls := calls w |}))
  /\ (TELEGRAM_BOT_TOKEN <> pystr "YOUR_TELEGRAM_BOT_TOKEN" ->
      GOOGLE_GEMINI_API_KEY <> pystr "YOUR_GOOGLE_GEMINI_API_KEY" ->
      get_api_keys_with TELEGRAM_BOT_TOKEN GOOGLE_GEMINI_API_KEY w
      = (Returns (TELEGRAM_BOT_TOKEN, GOOGLE_GEMINI_API_KEY), w))
  /\ get_api_keys w
     = (Returns (pystr "xxxxxxxxxxxxxxxz",
                 pystr "AIzaSyAseXen26vnBIoaxxxxxxxxxxxxxx"), w).
Proof.
  unfold get_api_keys_with. split; [|split].
  - intros H.
    assert (str_eqb TELEGRAM_BOT_TOKEN (pystr "YOUR_TELEGRAM_BOT_TOKEN")
            || str_eqb GOOGLE_GEMINI_API_KEY
                 (pystr "YOUR_GOOGLE_GEMINI_API_KEY") = true) as ->.
    { apply orb_true_iff. rewrite !str_eqb_eq. exact H. }
    run_unfold. cbn [bad_words stdout prompts calls].
    rewrite <- !app_assoc. reflexivity.
  - intros H1 H2.
    assert (str_eqb TELEGRAM_BOT_TOKEN (pystr "YOUR_TELEGRAM_BOT_TOKEN")
            || str_eqb GOOGLE_GEMINI_API_KEY
                 (pystr "YOUR_GOOGLE_GEMINI_API_KEY") = false) as ->.
    { apply orb_false_iff. rewrite <- !not_true_iff_false, !str_eqb_eq. auto. }
    reflexivity.
  - vm_compute. reflexivity.
Qed.

(** * Further properties *)

(** ** The message handler *)

Section Handler.
Variable U : UCD.
Variable S : services.

(** The literals stay folded while the runs are split into cases. *)
#[local] Opaque pystr.

(** X1. [moderate_message] never lets an [Exception] reach the framework:
    whatever the services do, it returns or fails with something outside
    [Exception]. *)
Theorem moderate_message_swallows_exceptions (update : update) (w : world)
    (msg : list N) :
  fst (moderate_message U S update w) <> Raises (Exception msg).
Proof.
  run_unfold. run_cases; try discriminate;
    intros [= ->]; cbn [is_Exception] in *; discriminate.
Qed.

(** X2. The handler makes at most two platform calls: nothing, or the
    deletion of the incoming message, or that deletion followed by one
    warning naming the sender, posted to the chat of the update in HTML
    mode.  It never warns without having deleted, and never deletes
    another message. *)
Theorem moderate_message_call_discipline (update : update) (w : world) :
  exists made,
    calls (snd (moderate_message U S update w)) = calls w ++ made
    /\ (made = []
        \/ exists message,
             update_message update = Some message
             /\ (made = [DeleteMessage (message_id message)]
                 \/ exists chat user,
                      effective_chat update = Some chat
                      /\ effective_user update = Some user
                      /\ made = [DeleteMessage (message_id message);
                                 SendMessage (chat_id chat)
                                   (warning_message (mention_html user))
                                   (pystr "HTML")])).
Proof.
  run_unfold. run_cases;
    first
      [ exists []; split; [now rewrite app_nil_r | left; reflexivity]
      | eexists; split;
        [ reflexivity
        | right; eexists; split; [reflexivity | left; reflexivity] ]
      | eexists; split;
        [ symmetry; apply app_assoc
        | right; eexists; split; [reflexivity|];
          right; eexists; eexists; repeat split ] ].
Qed.

(** X3. A message is deleted, or a warning sent, only if
    [contains_bad_words] flagged its text: if the handler made any
    platform call, the update carried a non-empty text and the check
    returned [True] on it. *)
Theorem platform_call_only_when_flagged (update : update) (w : world) :
  calls (snd (moderate_message U S update w)) <> calls w ->
  exists message text,
    update_message update = Some message
    /\ message_text message = Some text
    /\ text <> []
    /\ fst (contains_bad_words U S text w) = Returns true.
Proof.
  run_unfold. run_cases; intros H; try congruence;
    eexists; eexists; (split; [reflexivity|]);
    (split; [eassumption|]); (split; [discriminate|]);
    repeat match goal with
           | E : _ = _ |- _ => rewrite E
           end; try reflexivity.
Qed.

(** X4. A flagged message that the platform lets the bot delete is
    deleted first and then answered with the warning naming its sender. *)
Theorem flagged_message_deleted_then_warned (update : update)
    (message : message) (text : list N) (chat : chat) (user : user)
    (w w1 : world) :
  update_message update = Some message ->
  message_text message = Some text ->
  text <> [] ->
  contains_bad_words U S text w = (Returns true, w1) ->
  delete_message S w1 (message_id message) = Returns tt ->
  effective_user update = Some user ->
  effective_chat update = Some chat ->
  send_message S (record_call (DeleteMessage (message_id message)) w1)
    (chat_id chat) (warning_message (mention_html user)) (pystr "HTML")
  = Returns tt ->
  moderate_message U S update w
  = (Returns tt,
     record_call (SendMessage (chat_id chat)
                    (warning_message (mention_html user)) (pystr "HTML"))
       (record_call (DeleteMessage (message_id message)) w1)).
Proof.
  intros Hmessage Htext Hne Hflag Hdelete Huser Hchat Hsend.
  unfold moderate_message. rewrite Hmessage, Htext.
  destruct text as [|c text]; [congruence|].
  unfold try_except at 1. unfold bind at 1. rewrite Hflag.
  unfold delete_and_warn, try_except, bind, message_delete.
  rewrite Hdelete, Huser, Hchat. unfold ret, bot_send_message.
  unfold record_call, warning_message in *. rewrite Hsend. reflexivity.
Qed.

(** X5. When the platform refuses the deletion, no warning is posted: the
    handler prints "Could not delete message: ..." and returns, with the
    record of platform calls as the check left it. *)
Theorem refused_deletion_posts_no_warning (update : update)
    (message : message) (text : list N) (w w1 : world) (e : exn) :
  update_message update = Some message ->
  message_text message = Some text ->
  text <> [] ->
  contains_bad_words U S text w = (Returns true, w1) ->
  delete_message S w1 (message_id message) = Raises e ->
  is_Exception e = true ->
  moderate_message U S update w
  = (Returns tt,
     record_line (pystr "Could not delete message: " ++ exn_str e) w1).
Proof.
  intros Hmessage Htext Hne Hflag Hdelete He.
  unfold moderate_message. rewrite Hmessage, Htext.
  destruct text as [|c text]; [congruence|].
  unfold try_except at 1. unfold bind at 1. rewrite Hflag.
  unfold delete_and_warn, try_except, bind, message_delete.
  rewrite Hdelete, He. unfold print, record_line. reflexivity.
Qed.

(** X6. After a successful deletion, a failure to post the warning is
    swallowed too, and reported under the same heading: the message stays
    deleted, the log says "Could not delete message: ...", and the
    handler returns. *)
Theorem refused_warning_after_deletion (update : update)
    (message : message) (text : list N) (chat : chat) (user : user)
    (w w1 : world) (e : exn) :
  update_message update = Some message ->
  message_text message = Some text ->
  text <> [] ->
  contains_bad_words U S text w = (Returns true, w1) ->
  delete_message S w1 (message_id message) = Returns tt ->
  effective_user update = Some user ->
  effective_chat update = Some chat ->
  send_message S (record_call (DeleteMessage (message_id message)) w1)
    (chat_id chat) (warning_message (mention_html user)) (pystr "HTML")
  = Raises e ->
  is_Exception e = true ->
  moderate_message U S update w
  = (Returns tt,
     record_line (pystr "Could not delete message: " ++ exn_str e)
       (record_call (DeleteMessage (message_id message)) w1)).
Proof.
  intros Hmessage Htext Hne Hflag Hdelete Huser Hchat Hsend He.
  unfold moderate_message. rewrite Hmessage, Htext.
  destruct text as [|c text]; [congruence|].
  unfold try_except at 1. unfold bind at 1. rewrite Hflag.
  unfold delete_and_warn, try_except, bind, message_delete.
  rewrite Hdelete, Huser, Hchat. unfold ret, bot_send_message.
  unfold record_call, warning_message, record_line in *.
  rewrite Hsend, He. reflexivity.
Qed.

(** X7. A flagged message whose update names no sender is deleted all the
    same; building the warning then fails on [None], which is reported as
    "Could not delete message: 'NoneType' object has no attribute
    'mention_html'", and nothing is posted. *)
Theorem flagged_message_without_sender (update : update)
    (message : message) (text : list N) (w w1 : world) :
  update_message update = Some message ->
  message_text message = Some text ->
  text <> [] ->
  contains_bad_words U S text w = (Returns true, w1) ->
  delete_message S w1 (message_id message) = Returns tt ->
  effective_user update = None ->
  moderate_message U S update w
  = (Returns tt,
     record_line
       (pystr "Could not delete message: 'NoneType' object has no attribute 'mention_html'")
       (record_call (DeleteMessage (message_id message)) w1)).
Proof.
  intros Hmessage Htext Hne Hflag Hdelete Huser.
  unfold moderate_message. rewrite Hmessage, Htext.
  destruct text as [|c text]; [congruence|].
  unfold try_except at 1. unfold bind at 1. rewrite Hflag.
  unfold delete_and_warn, try_except, bind, message_delete.
  rewrite Hdelete, Huser.
  unfold attribute_error, raise, print, record_line, record_call.
  cbn [is_Exception exn_str bad_words stdout prompts calls].
  assert (pystr "Could not delete message: "
          ++ pystr "'NoneType' object has no attribute '"
          ++ pystr "mention_html" ++ pystr "'"
          = pystr "Could not delete message: 'NoneType' object has no attribute 'mention_html'")
    as -> by (vm_compute; reflexivity).
  reflexivity.
Qed.

(** X8. An update without a message, or whose message has no text or an
    empty one, is ignored: nothing is checked, printed, sent or deleted. *)
Theorem update_without_text_ignored (update : update) (w : world) :
  update_message update = None
  \/ (exists message,
        update_message update = Some message
        /\ (message_text message = None \/ message_text message = Some [])) ->
  moderate_message U S update w = (Returns tt, w).
Proof.
  unfold moderate_message.
  intros [->|[message [-> [->| ->]]]]; reflexivity.
Qed.

End Handler.

Lemma platform_call_only_when_flagged_witness :
  exists message text,
    update_message (sample_update (pystr "يا كلب")) = Some message
    /\ message_text message = Some text
    /\ text <> []
    /\ fst (contains_bad_words ucd_excerpt services_down text startup)
       = Returns true.
Proof.
  apply (platform_call_only_when_flagged ucd_excerpt services_down
           (sample_update (pystr "يا كلب")) startup).
  vm_compute. discriminate.
Defined.

Lemma flagged_message_deleted_then_warned_witness :
  moderate_message ucd_excerpt services_down
    (sample_update (pystr "يا كلب")) startup
  = (Returns tt,
     record_call (SendMessage (chat_id {| chat_id := (-100)%Z |})
                    (warning_message
                       (mention_html {| mention_html := pystr "Sam" |}))
                    (pystr "HTML"))
       (record_call
          (DeleteMessage
             (message_id {| message_id := 7;
                            message_text := Some (pystr "يا كلب") |}))
          startup)).
Proof.
  assert (Hne : pystr "يا كلب" <> []) by (vm_compute; discriminate).
  assert (Hflag : contains_bad_words ucd_excerpt services_down
                    (pystr "يا كلب") startup = (Returns true, startup))
    by (vm_compute; reflexivity).
  exact (flagged_message_deleted_then_warned ucd_excerpt services_down
           (sample_update (pystr "يا كلب"))
           {| message_id := 7; message_text := Some (pystr "يا كلب") |}
           (pystr "يا كلب") {| chat_id := (-100)%Z |}
           {| mention_html := pystr "Sam" |} startup startup
           eq_refl eq_refl Hne Hflag eq_refl eq_refl eq_refl eq_refl).
Defined.

Lemma refused_deletion_posts_no_warning_witness :
  moderate_message ucd_excerpt services_delete_denied
    (sample_update (pystr "يا كلب")) startup
  = (Returns tt,
     record_line (pystr "Could not delete message: "
                  ++ exn_str (Exception (pystr "Message can't be deleted")))
       startup).
Proof.
  assert (Hne : pystr "يا كلب" <> []) by (vm_compute; discriminate).
  assert (Hflag : contains_bad_words ucd_excerpt services_delete_denied
                    (pystr "يا كلب") startup = (Returns true, startup))
    by (vm_compute; reflexivity).
  exact (refused_deletion_posts_no_warning ucd_excerpt services_delete_denied
           (sample_update (pystr "يا كلب"))
           {| message_id := 7; message_text := Some (pystr "يا كلب") |}
           (pystr "يا كلب") startup startup
           (Exception (pystr "Message can't be deleted"))
           eq_refl eq_refl Hne Hflag eq_refl eq_refl).
Defined.

Lemma refused_warning_after_deletion_witness :
  moderate_message ucd_excerpt services_send_denied
    (sample_update (pystr "يا كلب")) startup
  = (Returns tt,
     record_line (pystr "Could not delete message: "
                  ++ exn_str (Exception (pystr "Forbidden: bot was kicked")))
       (record_call
          (DeleteMessage
             (message_id {| message_id := 7;
                            message_text := Some (pystr "يا كلب") |}))
          startup)).
Proof.
  assert (Hne : pystr "يا كلب" <> []) by (vm_compute; discriminate).
  assert (Hflag : contains_bad_words ucd_excerpt services_send_denied
                    (pystr "يا كلب") startup = (Returns true, startup))
    by (vm_compute; reflexivity).
  exact (refused_warning_after_deletion ucd_excerpt services_send_denied
           (sample_update (pystr "يا كلب"))
           {| message_id := 7; message_text := Some (pystr "يا كلب") |}
           (pystr "يا كلب") {| chat_id := (-100)%Z |}
           {| mention_html := pystr "Sam" |} startup startup
           (Exception (pystr "Forbidden: bot was kicked"))
           eq_refl eq_refl Hne Hflag eq_refl eq_refl eq_refl eq_refl eq_refl).
Defined.

Lemma flagged_message_without_sender_witness :
  moderate_message ucd_excerpt services_down
    {| update_message :=
         Some {| message_id := 7; message_text := Some (pystr "يا كلب") |};
       effective_chat := Some {| chat_id := (-100)%Z |};
       effective_user := None |} startup
  = (Returns tt,
     record_line
       (pystr "Could not delete message: 'NoneType' object has no attribute 'mention_html'")
       (record_call
          (DeleteMessage
             (message_id {| message_id := 7;
                            message_text := Some (pystr "يا كلب") |}))
          startup)).
Proof.
  assert (Hne : pystr "يا كلب" <> []) by (vm_compute; discriminate).
  assert (Hflag : contains_bad_words ucd_excerpt services_down
                    (pystr "يا كلب") startup = (Returns true, startup))
    by (vm_compute; reflexivity).
  exact (flagged_message_without_sender ucd_excerpt services_down
           {| update_message :=
                Some {| message_id := 7;
                        message_text := Some (pystr "يا كلب") |};
              effective_chat := Some {| chat_id := (-100)%Z |};
              effective_user := None |}
           {| message_id := 7; message_text := Some (pystr "يا كلب") |}
           (pystr "يا كلب") startup startup
           eq_refl eq_refl Hne Hflag eq_refl eq_refl).
Defined.

Lemma update_without_text_ignored_witness :
  moderate_message ucd_excerpt services_down
    {| update_message := Some {| message_id := 7; message_text := Some [] |};
       effective_chat := Some {| chat_id := (-100)%Z |};
       effective_user := Some {| mention_html := pystr "Sam" |} |} startup
  = (Returns tt, startup).
Proof.
  apply (update_without_text_ignored ucd_excerpt services_down).
  right. exists {| message_id := 7; message_text := Some [] |}.
  split; [reflexivity | right; reflexivity].
Defined.

(** ** Marks, spaces and spelling *)

Section Letters.
Variable U : UCD.

Lemma letters_of_classed_mark m : classed_mark U m = true -> letters_of U m = [].
Proof.
  unfold classed_mark, letters_of. intros H.
  induction (decomp U m) as [|d l IH]; [reflexivity|].
  cbn [List.forallb] in H. apply andb_true_iff in H as [Hd Hl].
  cbn [List.filter]. apply negb_true_iff in Hd. rewrite Hd. auto.
Qed.

Lemma with_marks_letters s s' :
  with_marks U s s' ->
  List.flat_map (letters_of U) s' = List.flat_map (letters_of U) s.
Proof.
  induction 1 as [|c s s' _ IH|m s s' Hm _ IH]; cbn [List.flat_map].
  - reflexivity.
  - now rewrite IH.
  - now rewrite (letters_of_classed_mark m Hm), IH.
Qed.

(** X9. Marks of non-zero combining class do not count: a text and the
    same text with such marks (Arabic tashkeel, the accents of
    U+0300..U+036F, and whatever decomposes into them only) put in
    anywhere have the same normal form.  Marks of combining class 0 are
    another matter: the filter keeps them. *)
Theorem classed_marks_ignored (s s' : list N) :
  with_marks U s s' ->
  normalize_arabic_text U s' = normalize_arabic_text U s.
Proof.
  intros H. rewrite !normalize_by_letters.
  now rewrite (with_marks_letters s s' H).
Qed.

Section SplitSpaces.
Variable space : N -> bool.
Variable sp : N.
Hypothesis Hsp : space sp = true.

Lemma split_from_leading s : split_from space [] (sp :: s) = split_from space [] s.
Proof. cbn [split_from]. now rewrite Hsp. Qed.

Lemma split_from_trailing word s :
  split_from space word (s ++ [sp]) = split_from space word s.
Proof.
  revert word. induction s as [|c s IH]; intros word; cbn [split_from app].
  - now rewrite Hsp.
  - now rewrite !IH.
Qed.

Lemma split_from_doubled word front rest :
  split_from space word (front ++ sp :: sp :: rest)
  = split_from space word (front ++ sp :: rest).
Proof.
  revert word. induction front as [|c front IH]; intros word;
    cbn [split_from app].
  - now rewrite Hsp.
  - now rewrite !IH.
Qed.

End SplitSpaces.

Hypothesis HU : ucd_laws U.

Lemma letters_of_space : letters_of U SPACE = [SPACE].
Proof. now rewrite (letters_of_stable U SPACE (space_stable U HU)). Qed.

(** X10. Superfluous spaces do not count: a space in front, a space at
    the end and a doubled space leave the normal form as it is. *)
Theorem spaces_collapse (front rest : list N) :
  normalize_arabic_text U (SPACE :: rest) = normalize_arabic_text U rest
  /\ normalize_arabic_text U (front ++ [SPACE]) = normalize_arabic_text U front
  /\ normalize_arabic_text U (front ++ SPACE :: SPACE :: rest)
     = normalize_arabic_text U (front ++ SPACE :: rest).
Proof.
  pose proof (space_is_space U HU) as Hsp.
  rewrite !normalize_by_letters. unfold split.
  rewrite !List.flat_map_app. cbn [List.flat_map].
  rewrite !letters_of_space. cbn [app].
  rewrite (split_from_leading (is_space U) SPACE Hsp).
  rewrite (split_from_trailing (is_space U) SPACE Hsp).
  rewrite (split_from_doubled (is_space U) SPACE Hsp).
  auto.
Qed.

(** X11. Splitting, joining with single spaces and splitting again gives
    the same words: collapsing white space loses no word and merges
    none. *)
Theorem split_join_round_trip (s : list N) :
  split U (join [SPACE] (split U s)) = split U s.
Proof.
  unfold split. apply split_join; [exact (space_is_space U HU)|].
  apply split_from_runs. constructor.
Qed.

End Letters.

Section Variants.
Variable U : UCD.
Hypothesis HU : ucd_laws U.
(** Alef with hamza is alef once its hamza, a combining mark, is gone. *)
Hypothesis Habove : letters_of U ALEF_HAMZA_ABOVE = [ALEF].
Hypothesis Hbelow : letters_of U ALEF_HAMZA_BELOW = [ALEF].

Lemma letters_of_canonical c :
  letters_of U (canonical_letter c) = letters_of U c.
Proof.
  assert (Hcanon : forall d, d ∈ [ALEF; HEH; YEH] -> letters_of U d = [d]).
  { intros d Hd. rewrite (letters_of_stable U d (canonical_stable U HU d Hd)).
    rewrite !elem_of_cons, elem_of_nil in Hd.
    destruct Hd as [->|[->|[->|[]]]]; reflexivity. }
  assert (Hplain : forall d, plain_letter d = true ->
            letters_of U d = [canonical_letter d]).
  { intros d Hd. apply letters_of_stable.
    now destruct (plain_settled U HU d Hd) as [H _]. }
  unfold canonical_letter.
  destruct (N.eqb_spec c ALEF_MAKSURA) as [->|_].
  { rewrite Hcanon by set_solver. now rewrite Hplain. }
  destruct (N.eqb_spec c TEH_MARBUTA) as [->|_].
  { rewrite Hcanon by set_solver. now rewrite Hplain. }
  destruct (N.eqb_spec c ALEF_HAMZA_ABOVE) as [->|_].
  { rewrite Hcanon by set_solver. now rewrite Habove. }
  destruct (N.eqb_spec c ALEF_HAMZA_BELOW) as [->|_].
  { rewrite Hcanon by set_solver. now rewrite Hbelow. }
  reflexivity.
Qed.

Lemma letters_of_canonical_text s :
  List.flat_map (letters_of U) (List.map canonical_letter s)
  = List.flat_map (letters_of U) s.
Proof.
  induction s as [|c s IH]; [reflexivity|].
  cbn [List.map List.flat_map]. now rewrite letters_of_canonical, IH.
Qed.

(** X12. Spelling variants do not count: two texts that differ only in
    alef maksura for yeh, teh marbuta for heh, or a hamza on alef have the
    same normal form. *)
Theorem spelling_variants_equated (s s' : list N) :
  List.map canonical_letter s = List.map canonical_letter s' ->
  normalize_arabic_text U s = normalize_arabic_text U s'.
Proof.
  intros E. rewrite !normalize_by_letters.
  rewrite <- (letters_of_canonical_text s), <- (letters_of_canonical_text s').
  now rewrite E.
Qed.

End Variants.

Section Found.
Variable U : UCD.
Variable S : services.
Hypothesis HU : ucd_laws U.

Lemma plain_entry_matched lexicon bad_word text :
  bad_word ∈ lexicon ->
  Forall (fun c => plain_letter c = true /\ variant_letter c = false)
    bad_word ->
  substring bad_word text ->
  lexicon_match U lexicon (normalize_arabic_text U text) = true.
Proof.
  intros Hin Hplain Hsub.
  assert (Hsolid : Forall (solid U) bad_word).
  { eapply Forall_impl; [exact Hplain|].
    intros c [H1 H2]. now apply plain_letter_solid. }
  apply lexicon_match_spec. exists bad_word. split; [exact Hin|].
  assert (lower U bad_word = bad_word) as ->.
  { apply lower_from_fixed; [exact HU|].
    eapply Forall_impl; [exact Hsolid|]. now intros c (_ & H & _). }
  now apply solid_run_survives.
Qed.

(** X13. A lexicon entry made of plain letters cannot be hidden by what
    surrounds it nor by marks of non-zero combining class (tashkeel,
    accents): every text that contains the entry, with such marks put in
    anywhere, is flagged by the lexicon, with no call to the model. *)
Theorem plain_entry_found_through_marks
    (bad_word text text' : list N) (w : world) :
  bad_word ∈ bad_words w ->
  Forall (fun c => plain_letter c = true /\ variant_letter c = false)
    bad_word ->
  substring bad_word text ->
  with_marks U text text' ->
  contains_bad_words U S text' w = (Returns true, w).
Proof.
  intros Hin Hplain Hsub Hmarks.
  assert (E : normalize_arabic_text U text' = normalize_arabic_text U text).
  { rewrite !normalize_by_letters.
    now rewrite (with_marks_letters U text text' Hmarks). }
  unfold contains_bad_words.
  now rewrite E, (plain_entry_matched (bad_words w) bad_word text).
Qed.

End Found.

(** ** The two-phase check *)

Section Phases.
Variable U : UCD.
Variable S : services.

#[local] Opaque pystr.

(** X14. The check sends the model at most one prompt: none when the
    lexicon matched, exactly one otherwise; and the prompt quotes the text
    as it was received, not its normal form. *)
Theorem contains_bad_words_prompts (text : list N) (w : world) :
  prompts (snd (contains_bad_words U S text w))
  = (if lexicon_match U (bad_words w) (normalize_arabic_text U text)
     then prompts w
     else prompts w ++ [gemini_prompt text])
  /\ substring text (gemini_prompt text).
Proof.
  split.
  - run_unfold. run_cases; reflexivity.
  - unfold gemini_prompt. eexists. eexists. reflexivity.
Qed.

(** X15. [contains_bad_words] never raises an [Exception]: whatever the
    model does, it returns a verdict or fails with something outside
    [Exception]. *)
Theorem contains_bad_words_swallows_exceptions (text : list N) (w : world)
    (msg : list N) :
  fst (contains_bad_words U S text w) <> Raises (Exception msg).
Proof.
  run_unfold. run_cases; try discriminate;
    intros [= ->]; cbn [is_Exception] in *; discriminate.
Qed.

Lemma upper_ascii v :
  Forall (fun c => upper_full U c = [ascii_upper c]) v ->
  upper U v = List.map ascii_upper v.
Proof.
  unfold upper. induction 1 as [|c v Hc _ IH]; [reflexivity|].
  cbn [List.flat_map List.map]. now rewrite Hc, IH.
Qed.

(** X16. The model's verdict is read without regard to case: when the
    lexicon found nothing and the reply contains "true" in any mix of
    upper and lower case, the text is flagged. *)
Theorem reply_true_in_any_case_flags (text : list N) (w : world)
    (reply : response) (answer v : list N) :
  lexicon_match U (bad_words w) (normalize_arabic_text U text) = false ->
  generate_content S w (gemini_prompt text) = Returns reply ->
  response_text reply = Returns answer ->
  substring v answer ->
  List.map ascii_upper v = pystr "TRUE" ->
  Forall (fun c => upper_full U c = [ascii_upper c]) v ->
  contains_bad_words U S text w
  = (Returns true, record_prompt (gemini_prompt text) w).
Proof.
  intros Hmiss Hreply Hanswer [front [rest ->]] Hv Hupper.
  unfold contains_bad_words. rewrite Hmiss.
  run_unfold. rewrite Hreply, Hanswer.
  assert (str_in (pystr "TRUE") (upper U (front ++ v ++ rest)) = true) as ->.
  { apply str_in_spec. unfold upper. rewrite !List.flat_map_app.
    fold (upper U v). rewrite (upper_ascii v Hupper), Hv.
    eexists. eexists. reflexivity. }
  reflexivity.
Qed.

End Phases.


(** ** The lexicon as a set *)

Lemma replace_letter_nil old new w : replace old [new] w = [] <-> w = [].
Proof.
  rewrite replace_letter. destruct w; [tauto|]. split; discriminate.
Qed.

Lemma replace_drop_nil old w :
  replace old [] w = [] <-> Forall (fun c => c = old) w.
Proof.
  unfold replace. induction w as [|c w IH]; cbn [List.flat_map].
  - split; [constructor | reflexivity].
  - destruct (N.eqb_spec c old) as [->|Hne]; cbn [app].
    + rewrite IH. split; [now constructor|].
      intros H. now apply Forall_cons in H as [_ H].
    + split; [discriminate|]. intros H.
      apply Forall_cons in H as [H _]. congruence.
Qed.

(** X17. Nothing else is in the lexicon: every entry is a seed word, a
    seed word without its spaces, or one of the three letter substitutions
    of a seed word. *)
Theorem lexicon_entries_come_from_seeds (bad_words : list (list N))
    (entry : list N) :
  entry ∈ compile_bad_words_from bad_words ->
  exists word,
    word ∈ bad_words
    /\ entry ∈ [ word; replace SPACE [] word;
                 replace ALEF [ALEF_HAMZA_ABOVE] word;
                 replace ALEF [ALEF_HAMZA_BELOW] word;
                 replace HEH [TEH_MARBUTA] word ].
Proof.
  rewrite elem_of_compile_bad_words. intros [word [Hword H]].
  exists word. split; [exact Hword|].
  rewrite !elem_of_cons, elem_of_nil. tauto.
Qed.

(** X18. The lexicon depends on the seed words as a set only: their
    order and repetitions (one seed is listed twice) make no difference. *)
Theorem lexicon_depends_on_seed_set (seeds seeds' : list (list N)) :
  (forall word, word ∈ seeds <-> word ∈ seeds') ->
  compile_bad_words_from seeds = compile_bad_words_from seeds'.
Proof.
  intros H. apply set_eq. intros entry.
  rewrite !elem_of_compile_bad_words.
  split; intros [word [Hword Hentry]]; exists word; (split; [|exact Hentry]);
    now apply H.
Qed.

(** X19. The lexicon has an empty entry exactly when a seed word is empty
    or all spaces.  The seed list of the source has none, which matters:
    an empty entry is found in every text, so it would flag every
    message. *)
Theorem empty_entry_iff_blank_seed (U : UCD) (bad_words : list (list N))
    (lexicon : gset (list N)) (normalized_text : list N) :
  ([] ∈ compile_bad_words_from bad_words <->
   exists word, word ∈ bad_words /\ Forall (fun c => c = SPACE) word)
  /\ ([] ∉ _compile_bad_words)
  /\ ([] ∈ lexicon -> lexicon_match U lexicon normalized_text = true).
Proof.
  assert (Hiff : forall seeds,
            [] ∈ compile_bad_words_from seeds <->
            exists word, word ∈ seeds /\ Forall (fun c => c = SPACE) word).
  { intros seeds. rewrite elem_of_compile_bad_words.
    split; intros [word [Hword H]]; exists word; (split; [exact Hword|]).
    - destruct H as [<-|[H|[H|[H|H]]]].
      + constructor.
      + now apply replace_drop_nil.
      + symmetry in H. apply replace_letter_nil in H as ->. constructor.
      + symmetry in H. apply replace_letter_nil in H as ->. constructor.
      + symmetry in H. apply replace_letter_nil in H as ->. constructor.
    - right. left. symmetry. now apply replace_drop_nil. }
  split; [apply Hiff|]. split.
  - unfold _compile_bad_words. rewrite Hiff. intros [word [Hword Hblank]].
    assert (H : List.forallb
                  (fun word => negb (List.forallb (N.eqb SPACE) word))
                  seed_bad_words = true) by (vm_compute; reflexivity).
    rewrite List.forallb_forall in H.
    apply list_elem_of_In, H, negb_true_iff in Hword.
    enough (List.forallb (N.eqb SPACE) word = true) by congruence.
    apply List.forallb_forall. intros c Hc. apply N.eqb_eq.
    rewrite Forall_forall in Hblank. symmetry.
    now apply Hblank, list_elem_of_In.
  - intros Hin. apply lexicon_match_spec. exists []. split; [exact Hin|].
    exists [], normalized_text. reflexivity.
Qed.

(** X20. Every entry of the lexicon is lowercase already: the [lower()]
    applied to each entry in the matching loop changes none of them. *)
Theorem lexicon_entries_lowercase (U : UCD) (HU : ucd_laws U)
    (bad_word : list N) :
  bad_word ∈ _compile_bad_words -> lower U bad_word = bad_word.
Proof.
  intros Hin. apply lower_from_fixed; [exact HU|].
  assert (H : List.forallb
                (List.forallb (fun c => plain_letter c || variant_letter c
                                        || (c =? SPACE)))
                (elements _compile_bad_words) = true)
    by (vm_compute; reflexivity).
  rewrite List.forallb_forall in H.
  apply elem_of_elements, list_elem_of_In, H in Hin.
  rewrite List.forallb_forall in Hin.
  apply Forall_forall. intros c Hc. apply list_elem_of_In, Hin in Hc.
  apply orb_true_iff in Hc as [Hc|Hc];
    [apply orb_true_iff in Hc as [Hc|Hc]|].
  - now destruct (plain_settled U HU c Hc) as (_ & H1 & _).
  - exact (variant_caseless U HU c Hc).
  - apply N.eqb_eq in Hc as ->. exact (space_lower U HU).
Qed.

(** ** Concrete runs of the further properties *)

(** Builds a derivation of [with_marks] between two explicit texts. *)
Ltac with_marks_steps :=
  repeat first
    [ apply with_marks_nil
    | apply with_marks_keep
    | apply with_marks_mark; [vm_compute; reflexivity|] ].

Lemma kalb_with_marks :
  with_marks ucd_excerpt (pystr "يا كلب!") (pystr "يا كَلْبٌ!").
Proof.
  replace (pystr "يا كلب!")
    with [0x64A; 0x627; 0x20; 0x643; 0x644; 0x628; 0x21]
    by (vm_compute; reflexivity).
  replace (pystr "يا كَلْبٌ!")
    with [0x64A; 0x627; 0x20; 0x643; 0x64E; 0x644; 0x652; 0x628; 0x64C; 0x21]
    by (vm_compute; reflexivity).
  with_marks_steps.
Qed.

Lemma classed_marks_ignored_witness :
  normalize_arabic_text ucd_excerpt (pystr "يا كَلْبٌ!")
  = normalize_arabic_text ucd_excerpt (pystr "يا كلب!").
Proof.
  exact (classed_marks_ignored ucd_excerpt (pystr "يا كلب!")
           (pystr "يا كَلْبٌ!") kalb_with_marks).
Defined.

Lemma spaces_collapse_witness :
  normalize_arabic_text ucd_excerpt (SPACE :: pystr "كلب")
  = normalize_arabic_text ucd_excerpt (pystr "كلب")
  /\ normalize_arabic_text ucd_excerpt (pystr "يا" ++ [SPACE])
     = normalize_arabic_text ucd_excerpt (pystr "يا")
  /\ normalize_arabic_text ucd_excerpt
       (pystr "يا" ++ SPACE :: SPACE :: pystr "كلب")
     = normalize_arabic_text ucd_excerpt (pystr "يا" ++ SPACE :: pystr "كلب").
Proof.
  exact (spaces_collapse ucd_excerpt ucd_excerpt_laws (pystr "يا")
           (pystr "كلب")).
Defined.

Lemma split_join_round_trip_witness :
  split ucd_excerpt (join [SPACE] (split ucd_excerpt (pystr "  يا   كلب ")))
  = split ucd_excerpt (pystr "  يا   كلب ").
Proof.
  exact (split_join_round_trip ucd_excerpt ucd_excerpt_laws
           (pystr "  يا   كلب ")).
Defined.

Lemma spelling_variants_equated_witness :
  normalize_arabic_text ucd_excerpt (pystr "إلى المدرسة")
  = normalize_arabic_text ucd_excerpt (pystr "الي المدرسه").
Proof.
  assert (Habove : letters_of ucd_excerpt ALEF_HAMZA_ABOVE = [ALEF])
    by (vm_compute; reflexivity).
  assert (Hbelow : letters_of ucd_excerpt ALEF_HAMZA_BELOW = [ALEF])
    by (vm_compute; reflexivity).
  assert (E : List.map canonical_letter (pystr "إلى المدرسة")
              = List.map canonical_letter (pystr "الي المدرسه"))
    by (vm_compute; reflexivity).
  exact (spelling_variants_equated ucd_excerpt ucd_excerpt_laws
           Habove Hbelow (pystr "إلى المدرسة") (pystr "الي المدرسه") E).
Defined.

Lemma kalb_in_lexicon : pystr "كلب" ∈ bad_words startup.
Proof.
  apply elem_of_compile_bad_words. exists (pystr "كلب").
  split; [|left; reflexivity].
  apply str_mem_spec. vm_compute. reflexivity.
Qed.

Lemma plain_entry_found_through_marks_witness :
  contains_bad_words ucd_excerpt services_down (pystr "يا كَلْبٌ!") startup
  = (Returns true, startup).
Proof.
  assert (Hplain : Forall (fun c => plain_letter c = true
                                    /\ variant_letter c = false)
                     (pystr "كلب")) by (repeat constructor).
  assert (Hsub : substring (pystr "كلب") (pystr "يا كلب!")).
  { exists (pystr "يا "), (pystr "!"). vm_compute. reflexivity. }
  exact (plain_entry_found_through_marks ucd_excerpt services_down
           ucd_excerpt_laws (pystr "كلب") (pystr "يا كلب!")
           (pystr "يا كَلْبٌ!") startup kalb_in_lexicon Hplain Hsub
           kalb_with_marks).
Defined.

Lemma reply_true_in_any_case_flags_witness :
  contains_bad_words ucd_excerpt
    (services_answering (pystr "The answer is True.")) (pystr "hello")
    startup
  = (Returns true, record_prompt (gemini_prompt (pystr "hello")) startup).
Proof.
  assert (Hmiss : lexicon_match ucd_excerpt (bad_words startup)
                    (normalize_arabic_text ucd_excerpt (pystr "hello"))
                  = false) by (vm_compute; reflexivity).
  assert (Hsub : substring (pystr "True") (pystr "The answer is True.")).
  { exists (pystr "The answer is "), (pystr "."). vm_compute. reflexivity. }
  assert (Hv : List.map ascii_upper (pystr "True") = pystr "TRUE")
    by (vm_compute; reflexivity).
  assert (Hupper : Forall (fun c => upper_full ucd_excerpt c = [ascii_upper c])
                     (pystr "True")).
  { replace (pystr "True") with [0x54; 0x72; 0x75; 0x65]
      by (vm_compute; reflexivity).
    repeat constructor. }
  exact (reply_true_in_any_case_flags ucd_excerpt
           (services_answering (pystr "The answer is True."))
           (pystr "hello") startup
           {| response_text := Returns (pystr "The answer is True.") |}
           (pystr "The answer is True.") (pystr "True")
           Hmiss eq_refl eq_refl Hsub Hv Hupper).
Defined.

Lemma lexicon_entries_come_from_seeds_witness :
  exists word,
    word ∈ seed_bad_words
    /\ pystr "ع أ ه ر" ∈ [ word; replace SPACE [] word;
                           replace ALEF [ALEF_HAMZA_ABOVE] word;
                           replace ALEF [ALEF_HAMZA_BELOW] word;
                           replace HEH [TEH_MARBUTA] word ].
Proof.
  apply (lexicon_entries_come_from_seeds seed_bad_words (pystr "ع أ ه ر")).
  apply elem_of_compile_bad_words. exists (pystr "ع ا ه ر"). split.
  - apply str_mem_spec. vm_compute. reflexivity.
  - right. right. left. vm_compute. reflexivity.
Defined.

Lemma lexicon_depends_on_seed_set_witness :
  compile_bad_words_from [pystr "كلب"; pystr "kos"; pystr "كلب"]
  = compile_bad_words_from [pystr "kos"; pystr "كلب"].
Proof.
  apply lexicon_depends_on_seed_set.
  intros word. rewrite !elem_of_cons, elem_of_nil. tauto.
Defined.

Lemma lexicon_entries_lowercase_witness :
  lower ucd_excerpt (pystr "عاهرة") = pystr "عاهرة".
Proof.
  apply (lexicon_entries_lowercase ucd_excerpt ucd_excerpt_laws).
  apply elem_of_compile_bad_words. exists (pystr "عاهرة").
  split; [|left; reflexivity].
  apply str_mem_spec. vm_compute. reflexivity.
Defined.
